(** * ED System Finder proxy server: the fetch-and-normalize layer

    A shallow embedding of [server.js]: the JavaScript values the server
    handles, the built-in string functions it calls ([trim], [parseInt],
    [parseFloat], [String.prototype.match] on its two patterns), the DOM
    queries of [parseInaraSystemsHtml], the normalizer [formatEdsmSystems]
    and the four request handlers with their retry loops.

    Conventions of the model.
    - A string is a sequence of code units below 256 ([Ascii.ascii]).
    - A number is a binary64 value, written as the decimal [Fin m e] it
      equals, [m * 10^e]; [parseInt] and [parseFloat] round to the nearest
      such value and overflow to an infinity ([binary64]), and a number
      prints with the fewest digits that read back as itself. [-0] is
      identified with [0] (the program never tells them apart: both are
      falsy and both print as 0).
    - A thrown exception is a [Throw] completion carrying the error's
      [message]; converting to a string an object that has a property
      [toString] of its own, which no JSON value can call, throws.
    - The libraries the server calls are outside it: the HTML parser of
      jsdom is a parameter, and each [axios.get] is answered by an
      environment that gives the outcome of the k-th call.
    - A [while] loop is a function on a fuel that counts iterations; the
      loops stop by their own test and never run out of a fuel of
      [maxAttempts] or more ([handle_run]). *)

From Stdlib Require Import ZArith List String Ascii Bool Lia Arith.
From Stdlib Require Import DecimalString.
Import ListNotations.

Set Warnings "-register-all".
Open Scope string_scope.

(** ** JavaScript values *)

Module JS.

Inductive number : Type :=
| NaN
| Inf (negative : bool)
| Fin (m : Z) (e : Z).

Inductive value : Type :=
| VUndefined
| VNull
| VBool (b : bool)
| VNum (n : number)
| VStr (s : string)
| VArr (items : list value)
| VObj (props : list (string * value)).

Record error : Type := mkError { message : string }.

(** The outcome of evaluating an expression or a block: a value, or an
    exception on its way to the nearest [catch]. *)
Inductive completion (A : Type) : Type :=
| Normal (a : A)
| Throw (e : error).

Arguments Normal {A} a.
Arguments Throw {A} e.

Definition bind {A B : Type} (c : completion A) (k : A -> completion B)
  : completion B :=
  match c with
  | Normal a => k a
  | Throw e => Throw e
  end.

Notation "x <- c ;; k" := (bind c (fun x => k))
  (at level 61, c at next level, right associativity).

(** [ToBoolean]: the falsy values are [undefined], [null], [false], [0],
    [NaN] and the empty string. *)
Definition number_truthy (n : number) : bool :=
  match n with
  | NaN => false
  | Inf _ => true
  | Fin m _ => negb (m =? 0)%Z
  end.

Definition truthy (v : value) : bool :=
  match v with
  | VUndefined | VNull => false
  | VBool b => b
  | VNum n => number_truthy n
  | VStr s => negb (s =? "")
  | VArr _ | VObj _ => true
  end.

(** [a || b] *)
Definition or_else (a b : value) : value := if truthy a then a else b.

(** Own-property lookup in an object; a missing key reads as [undefined]. *)
Fixpoint lookup (key : string) (props : list (string * value)) : value :=
  match props with
  | [] => VUndefined
  | (k, v) :: rest => if k =? key then v else lookup key rest
  end.

(** [v.key] for the property names the server reads ([information], [name],
    [allegiance], [errorCode], ...): none of them is defined on a
    prototype, so on a primitive or an array the read gives [undefined];
    on [null] and [undefined] it throws a TypeError. *)
Definition get (v : value) (key : string) : completion value :=
  match v with
  | VUndefined =>
      Throw (mkError ("Cannot read properties of undefined (reading '"
                        ++ key ++ "')"))
  | VNull =>
      Throw (mkError ("Cannot read properties of null (reading '"
                        ++ key ++ "')"))
  | VObj props => Normal (lookup key props)
  | _ => Normal VUndefined
  end.

Definition is_nullish (v : value) : bool :=
  match v with
  | VUndefined | VNull => true
  | _ => false
  end.

Definition isArray (v : value) : bool :=
  match v with
  | VArr _ => true
  | _ => false
  end.

(** [Array.prototype.map] with a callback that may throw: the first
    exception aborts the traversal. *)
Fixpoint map_array {A B : Type} (f : A -> completion B) (l : list A)
  : completion (list B) :=
  match l with
  | [] => Normal []
  | x :: rest =>
      y <- f x ;;
      ys <- map_array f rest ;;
      Normal (y :: ys)
  end.

Definition of_Z (z : Z) : value := VNum (Fin z 0).

(** *** Number values

    [binary64 neg p q] is the Number value of the rational [p / q]
    ([0 <= p], [0 < q]) under the sign [neg]: the nearest binary64 value,
    the one with the even significand of two as near, and an infinity
    from [2^1024] on. It comes out in canonical form: [Fin z 0] for an
    integer, and [Fin m e] with [e < 0] and [m] odd otherwise. *)

(** [num / (den * 2^k)] as a fraction of integers. *)
Definition scale (num den k : Z) : Z * Z :=
  if (k <? 0)%Z then (num * 2 ^ (- k), den)%Z else (num, den * 2 ^ k)%Z.

(** The integer nearest to [num / den], the even one of two as near. *)
Definition roundHalfEven (num den : Z) : Z :=
  let q := (num / den)%Z in
  let r := (num mod den)%Z in
  if (2 * r <? den)%Z then q
  else if (den <? 2 * r)%Z then (q + 1)%Z
  else if Z.even q then q else (q + 1)%Z.

(** The exponent of the last place of the significand of [p / q]:
    [floor (log2 (p / q)) - 52], and -1074 in the subnormal range. *)
Definition lastPlace (p q : Z) : Z :=
  let d := (Z.log2 p - Z.log2 q)%Z in
  let '(num, den) := scale p q d in
  let e := if (num <? den)%Z then (d - 1)%Z else d in
  Z.max (e - 52) (-1074).

(** [n * 2^e] for [e < 0] in lowest terms: [n] is halved while it is
    even and the exponent is negative. *)
Fixpoint halve (fuel : nat) (n e : Z) : Z * Z :=
  match fuel with
  | O => (n, e)
  | S fuel' =>
      if (e <? 0)%Z && Z.even n then halve fuel' (n / 2)%Z (e + 1)%Z
      else (n, e)
  end.

Definition signed (neg : bool) (m : Z) : Z := if neg then (- m)%Z else m.

(** [n * 2^e] as a decimal: [n / 2^k] is [n * 5^k / 10^k]. *)
Definition dyadic (neg : bool) (n e : Z) : number :=
  if (0 <=? e)%Z then Fin (signed neg (n * 2 ^ e)) 0
  else
    let '(n', e') := halve (Z.to_nat (- e)) n e in
    Fin (signed neg (n' * 5 ^ (- e'))) e'.

Definition binary64 (neg : bool) (p q : Z) : number :=
  if (p =? 0)%Z then Fin 0 0
  else
    let e := lastPlace p q in
    let '(num, den) := scale p q e in
    let n := roundHalfEven num den in
    if ((0 <=? e) && (2 ^ 1024 <=? n * 2 ^ e))%Z then Inf neg
    else dyadic neg n e.

(** The Number value of the decimal [m * 10^e], [0 <= m]. *)
Definition ofDecimal (neg : bool) (m e : Z) : number :=
  if (0 <=? e)%Z then binary64 neg (m * 10 ^ e) 1
  else binary64 neg m (10 ^ (- e)).

Arguments binary64 : simpl never.
Arguments ofDecimal : simpl never.

(** *** Conversion to string *)

Definition decimal_digits (n : Z) : string :=
  NilZero.string_of_uint (N.to_uint (Z.to_N n)).

Fixpoint strip_trailing_zeros (s : string) : string :=
  match s with
  | String c rest =>
      let rest' := strip_trailing_zeros rest in
      if (c =? "0")%char && (rest' =? "") then "" else String c rest'
  | EmptyString => EmptyString
  end.

Fixpoint zeros (n : nat) : string :=
  match n with
  | O => EmptyString
  | S n' => String "0" (zeros n')
  end.

Definition number_eqb (x y : number) : bool :=
  match x, y with
  | NaN, NaN => true
  | Inf a, Inf b => Bool.eqb a b
  | Fin m e, Fin m' e' => ((m =? m') && (e =? e'))%Z
  | _, _ => false
  end.

(** The digits [Number::toString] prints for the positive number
    [m * 10^e]: the least count [k] of digits, from [k] on, for which
    some [s * 10^t] of [k] digits has the number as its Number value,
    and the [s] nearest to the number when two have. [m * 10^e] stands
    for itself when [fuel] counts run out, which 17 never do. *)
Fixpoint shortest (fuel : nat) (k : Z) (m e : Z) : Z * Z :=
  match fuel with
  | O => (m, e)
  | S fuel' =>
      let len := Z.of_nat (String.length (decimal_digits m)) in
      let t := (len + e - k)%Z in
      let '(num, den) :=
        if (len <=? k)%Z then (m * 10 ^ (k - len), 1)%Z
        else (m, 10 ^ (len - k))%Z in
      let lo := (num / den)%Z in
      let hi := (lo + 1)%Z in
      let reads (s : Z) := number_eqb (ofDecimal false s t) (Fin m e) in
      if reads lo && reads hi then (roundHalfEven num den, t)
      else if reads lo then (lo, t)
      else if reads hi then (hi, t)
      else shortest fuel' (k + 1)%Z m e
  end.

(** The notation of [m * 10^e], [0 < m]: with [s] the significant
    digits, [k] their count and [n] the position of the decimal point, it
    is positional for [-6 < n <= 21] and exponential otherwise. *)
Definition notation (m e : Z) : string :=
  let all := decimal_digits m in
  let s := strip_trailing_zeros all in
  let k := Z.of_nat (String.length s) in
  let n := (Z.of_nat (String.length all) + e)%Z in
  let exponent :=
    (if (n - 1 <? 0)%Z then "-" else "+")
      ++ decimal_digits (Z.abs (n - 1)) in
  if ((k <=? n) && (n <=? 21))%Z then
    s ++ zeros (Z.to_nat (n - k))
  else if ((0 <? n) && (n <=? 21))%Z then
    substring 0 (Z.to_nat n) s ++ "."
      ++ substring (Z.to_nat n) (Z.to_nat (k - n)) s
  else if ((-6 <? n) && (n <=? 0))%Z then
    "0." ++ zeros (Z.to_nat (- n)) ++ s
  else if (k =? 1)%Z then
    s ++ "e" ++ exponent
  else
    substring 0 1 s ++ "." ++ substring 1 (Z.to_nat (k - 1)) s
      ++ "e" ++ exponent.

(** [Number::toString], of the Number value of [m * 10^e]. *)
Definition numberToString (x : number) : string :=
  match x with
  | NaN => "NaN"
  | Inf neg => if neg then "-Infinity" else "Infinity"
  | Fin m e =>
      match ofDecimal false (Z.abs m) e with
      | NaN => "NaN"
      | Inf _ => if (m <? 0)%Z then "-Infinity" else "Infinity"
      | Fin m' e' =>
          if (m' =? 0)%Z then "0"
          else
            let '(s, t) := shortest 17 1 m' e' in
            (if (m <? 0)%Z then "-" else "") ++ notation s t
      end
  end.

Arguments numberToString : simpl never.

(** Does the object have a property [key] of its own? *)
Definition hasOwnProperty (key : string) (props : list (string * value))
  : bool :=
  existsb (fun entry => fst entry =? key) props.

(** [ToString]. An array prints its elements joined by commas, with
    [null] and [undefined] elements printed as nothing. An object is
    printed by its [toString] method: the inherited one gives
    "[object Object]"; a property [toString] of its own hides it and
    cannot be called, no more than [valueOf] then gives a primitive, and
    the conversion throws a TypeError. *)
Fixpoint toString (v : value) : completion string :=
  match v with
  | VUndefined => Normal "undefined"
  | VNull => Normal "null"
  | VBool b => Normal (if b then "true" else "false")
  | VNum n => Normal (numberToString n)
  | VStr s => Normal s
  | VArr items =>
      (fix join (l : list value) : completion string :=
         match l with
         | [] => Normal EmptyString
         | x :: rest =>
             first <- match x with
                      | VUndefined | VNull => Normal EmptyString
                      | _ => toString x
                      end ;;
             match rest with
             | [] => Normal first
             | _ :: _ => others <- join rest ;;
                         Normal (first ++ "," ++ others)
             end
         end) items
  | VObj props =>
      if hasOwnProperty "toString" props
      then Throw (mkError "Cannot convert object to primitive value")
      else Normal "[object Object]"
  end.

(** [new Error(v)]: the message is [v] converted to a string. *)
Definition newError (v : value) : completion error :=
  text <- toString v ;; Normal (mkError text).

(** Induction on values, through the elements of arrays. *)
Section ValueInduction.

Variable P : value -> Prop.
Hypothesis Hundefined : P VUndefined.
Hypothesis Hnull : P VNull.
Hypothesis Hbool : forall b, P (VBool b).
Hypothesis Hnum : forall n, P (VNum n).
Hypothesis Hstr : forall s, P (VStr s).
Hypothesis Harr : forall items, Forall P items -> P (VArr items).
Hypothesis Hobj : forall props, P (VObj props).


End ValueInduction.

End JS.

Import JS.

(** ** The normalizer for the JSON source *)

Module Edsm.

(** The arrow function passed to [map] in [formatEdsmSystems]. *)
Definition formatEdsmSystem (system : value) : completion value :=
  information <- get system "information" ;;
  let info := or_else information (VObj []) in
  name <- get system "name" ;;
  economy <- get info "economy" ;;
  security <- get info "security" ;;
  allegiance <- get info "allegiance" ;;
  faction <- get info "faction" ;;
  distance <- get system "distance" ;;
  bodyCount <- get system "bodyCount" ;;
  Normal (VObj
    [ ("name", name);
      ("economy", or_else economy (VStr ""));
      ("security", or_else security (VStr ""));
      ("allegiance", or_else allegiance (VStr "Independent"));
      ("factions", if truthy faction then of_Z 1 else of_Z 0);
      ("stations", of_Z 0);
      ("distance", or_else distance VNull);
      ("direction", VNull);
      ("bodyCount", or_else bodyCount (of_Z 0)) ]).

Definition formatEdsmSystems (edsmSystems : list value)
  : completion (list value) :=
  map_array formatEdsmSystem edsmSystems.

End Edsm.

(** ** Built-in string functions *)

Module Text.

(** White space and line terminators among the code units below 256:
    TAB, LF, VT, FF, CR, SP and NBSP. [trim], [parseInt], [parseFloat]
    and the pattern class [\s] all use this set. *)
Definition isWhiteSpace (c : ascii) : bool :=
  let n := nat_of_ascii c in
  (((9 <=? n) && (n <=? 13)) || (n =? 32) || (n =? 160))%nat.

Definition isDigit (c : ascii) : bool :=
  let n := nat_of_ascii c in ((48 <=? n) && (n <=? 57))%nat.

Fixpoint trimStart (s : string) : string :=
  match s with
  | String c rest => if isWhiteSpace c then trimStart rest else s
  | EmptyString => EmptyString
  end.

Fixpoint trimEnd (s : string) : string :=
  match s with
  | String c rest =>
      let rest' := trimEnd rest in
      if isWhiteSpace c && (rest' =? "") then "" else String c rest'
  | EmptyString => EmptyString
  end.

Definition trim (s : string) : string := trimEnd (trimStart s).

(** The value of a digit in a radix up to 36: [0-9], [a-z], [A-Z]. *)
Definition digit_value (c : ascii) : option Z :=
  let n := Z.of_nat (nat_of_ascii c) in
  if ((48 <=? n) && (n <=? 57))%Z then Some (n - 48)%Z
  else if ((97 <=? n) && (n <=? 122))%Z then Some (n - 87)%Z
  else if ((65 <=? n) && (n <=? 90))%Z then Some (n - 55)%Z
  else None.

(** The longest prefix of radix-[radix] digits, read as an integer;
    [acc] is [None] until a first digit has been read. *)
Fixpoint parse_digits (radix : Z) (s : string) (acc : option Z) : option Z :=
  match s with
  | String c rest =>
      match digit_value c with
      | Some d =>
          if (d <? radix)%Z
          then parse_digits radix rest
                 (Some (match acc with
                        | Some a => a * radix + d
                        | None => d
                        end)%Z)
          else acc
      | None => acc
      end
  | EmptyString => acc
  end.

(** A leading sign, and whether it is a minus. *)
Definition strip_sign (s : string) : bool * string :=
  match s with
  | String "-" rest => (true, rest)
  | String "+" rest => (false, rest)
  | _ => (false, s)
  end.

(** A leading [0x] or [0X] selects radix 16; the radix is 10 otherwise. *)
Definition strip_radix (s : string) : Z * string :=
  match s with
  | String "0" (String "x" rest) => (16%Z, rest)
  | String "0" (String "X" rest) => (16%Z, rest)
  | _ => (10%Z, s)
  end.

(** [parseInt(s)] with no radix argument: leading white space is skipped,
    a sign is read, a [0x]/[0X] prefix selects radix 16, and the Number
    value of the longest prefix of digits is the result; [NaN] when
    there is no digit. *)
Definition parseInt (s : string) : number :=
  let '(neg, s1) := strip_sign (trimStart s) in
  let '(radix, s2) := strip_radix s1 in
  match parse_digits radix s2 None with
  | Some z => binary64 neg z 1
  | None => NaN
  end.

(** The longest prefix of decimal digits and what follows it. *)
Fixpoint span_digits (s : string) : string * string :=
  match s with
  | String c rest =>
      if isDigit c
      then let '(d, r) := span_digits rest in (String c d, r)
      else (EmptyString, s)
  | EmptyString => (EmptyString, EmptyString)
  end.

Definition digits_to_Z (s : string) : Z :=
  match parse_digits 10 s None with
  | Some z => z
  | None => 0%Z
  end.

(** The exponent part [e|E (+|-)? digits] at the head of [s], if any. *)
Definition exponent_part (s : string) : Z :=
  match s with
  | String c rest =>
      if (c =? "e")%char || (c =? "E")%char then
        let '(neg, r) := strip_sign rest in
        let '(d, _) := span_digits r in
        if d =? "" then 0%Z
        else if neg then (- digits_to_Z d)%Z else digits_to_Z d
      else 0%Z
  | EmptyString => 0%Z
  end.

(** [parseFloat(s)]: the Number value of the longest prefix of [s], after
    leading white space, that is a decimal literal. *)
Definition parseFloat (s : string) : number :=
  let '(neg, s1) := strip_sign (trimStart s) in
  if prefix "Infinity" s1 then Inf neg
  else
    let '(ip, r1) := span_digits s1 in
    let '(fp, r2) :=
      match r1 with
      | String "." r => span_digits r
      | _ => (EmptyString, r1)
      end in
    if (ip =? "") && (fp =? "") then NaN
    else
      ofDecimal neg (digits_to_Z (ip ++ fp))
                (exponent_part r2 - Z.of_nat (String.length fp)).

End Text.

(** ** Regular expressions

    The backtracking matcher of the language specification, for the
    operators the two patterns of the server use. A matcher takes the rest
    of the input, the captures so far and a continuation; greedy
    quantifiers try one more iteration before they try the continuation. *)

Module RegExp.

Import Text.

Inductive regex : Type :=
| Eps                          (* the empty pattern *)
| Chr (c : ascii)
| Digit                        (* \d *)
| Space                        (* \s *)
| Seq (r1 r2 : regex)
| Opt (r : regex)              (* r? *)
| Star (r : regex)             (* r* *)
| Plus (r : regex)             (* r+ *)
| Group (i : nat) (r : regex). (* the i-th capturing group *)

(** The characters of [s] in sequence. *)
Fixpoint Lit (s : string) : regex :=
  match s with
  | String c rest => Seq (Chr c) (Lit rest)
  | EmptyString => Eps
  end.

Definition captures := list (nat * string).

Definition cont := string -> captures -> option captures.

Definition matcher := string -> captures -> cont -> option captures.

Definition first_of (a b : option captures) : option captures :=
  match a with
  | Some x => Some x
  | None => b
  end.

Definition class (p : ascii -> bool) : matcher :=
  fun s c k =>
    match s with
    | String a rest => if p a then k rest c else None
    | EmptyString => None
    end.

(** Greedy repetition of [step]; an iteration that consumes nothing is
    rejected, and [fuel] bounds the iterations by the input length. *)
Fixpoint repeat_matcher (step : matcher) (fuel : nat) : matcher :=
  fun s c k =>
    match fuel with
    | O => k s c
    | S fuel' =>
        first_of
          (step s c (fun s' c' =>
             if (String.length s' <? String.length s)%nat
             then repeat_matcher step fuel' s' c' k
             else None))
          (k s c)
    end.

(** What was consumed between the input [s] and its suffix [s']. *)
Definition consumed (s s' : string) : string :=
  substring 0 (String.length s - String.length s') s.

Fixpoint compile (r : regex) : matcher :=
  match r with
  | Eps => fun s c k => k s c
  | Chr a => class (Ascii.eqb a)
  | Digit => class isDigit
  | Space => class isWhiteSpace
  | Seq r1 r2 => fun s c k => compile r1 s c (fun s' c' => compile r2 s' c' k)
  | Opt r1 => fun s c k => first_of (compile r1 s c k) (k s c)
  | Star r1 => fun s c k => repeat_matcher (compile r1) (String.length s) s c k
  | Plus r1 =>
      fun s c k =>
        compile r1 s c (fun s' c' =>
          repeat_matcher (compile r1) (String.length s') s' c' k)
  | Group i r1 =>
      fun s c k =>
        compile r1 s c (fun s' c' => k s' ((i, consumed s s') :: c'))
  end.

(** [RegExpBuiltinExec] for a pattern without flags: the match is tried at
    each index from the left, and the first success wins. *)
Fixpoint exec (r : regex) (s : string) : option captures :=
  match compile r s [] (fun _ c => Some c) with
  | Some c => Some c
  | None =>
      match s with
      | String _ rest => exec r rest
      | EmptyString => None
      end
  end.

(** The text of group [i] in a match result. *)
Fixpoint group (i : nat) (c : captures) : option string :=
  match c with
  | [] => None
  | (j, s) :: rest => if (j =? i)%nat then Some s else group i rest
  end.

(** [/(\d+\.\d+)\s*Ly/] *)
Definition distancePattern : regex :=
  Seq (Group 1 (Seq (Plus Digit) (Seq (Chr ".") (Plus Digit))))
      (Seq (Star Space) (Lit "Ly")).

(** [/rotate\((-?\d+)deg\)/] *)
Definition rotatePattern : regex :=
  Seq (Lit "rotate(")
      (Seq (Group 1 (Seq (Opt (Chr "-")) (Plus Digit)))
           (Lit "deg)")).

End RegExp.

(** ** The document tree and the queries made on it

    [new JSDOM(html)] parses the page; the parser belongs to the jsdom
    library and is a parameter of the handlers below. What the server
    itself does starts at the parsed tree. *)

Module Dom.

Import Text.

Inductive node : Type :=
| TextNode (data : string)
| CommentNode (data : string)
| ElementNode (tag : string) (attrs : list (string * string))
              (children : list node).

(** An element as the queries return it: its own tag, attributes and
    children, and the tag and attributes of each ancestor, nearest first. *)
Record element : Type := mkElement {
  tagName : string;
  attributes : list (string * string);
  childNodes : list node;
  ancestors : list (string * list (string * string))
}.

Definition document := list node.

(** [textContent]: the text of all descendant text nodes, in order. *)
Fixpoint nodeText (n : node) : string :=
  match n with
  | TextNode data => data
  | CommentNode _ => EmptyString
  | ElementNode _ _ children =>
      (fix go (l : list node) : string :=
         match l with
         | [] => EmptyString
         | c :: rest => nodeText c ++ go rest
         end) children
  end.

Definition textContent (e : element) : string :=
  nodeText (ElementNode (tagName e) (attributes e) (childNodes e)).

(** [getAttribute]: [None] stands for [null]. *)
Fixpoint getAttribute (name : string) (attrs : list (string * string))
  : option string :=
  match attrs with
  | [] => None
  | (k, v) :: rest => if k =? name then Some v else getAttribute name rest
  end.

(** The elements of the subtree of [n], [n] included, in document order. *)
Fixpoint subtree (anc : list (string * list (string * string))) (n : node)
  : list element :=
  match n with
  | ElementNode tag attrs children =>
      mkElement tag attrs children anc ::
      (fix go (l : list node) : list element :=
         match l with
         | [] => []
         | c :: rest => (subtree ((tag, attrs) :: anc) c ++ go rest)%list
         end) children
  | _ => []
  end.

Definition descendants (e : element) : list element :=
  flat_map (subtree ((tagName e, attributes e) :: ancestors e)) (childNodes e).

Definition documentElements (doc : document) : list element :=
  flat_map (subtree []) doc.

(** The class list of an element: its [class] attribute split at ASCII
    white space. *)
Definition isAsciiSpace (c : ascii) : bool :=
  let n := nat_of_ascii c in
  ((n =? 9) || (n =? 10) || (n =? 12) || (n =? 13) || (n =? 32))%nat.

Fixpoint tokens (s : string) (cur : string) : list string :=
  match s with
  | EmptyString => if cur =? "" then [] else [cur]
  | String c rest =>
      if isAsciiSpace c
      then (if cur =? "" then tokens rest "" else cur :: tokens rest "")
      else tokens rest (cur ++ String c EmptyString)
  end.

Definition classList (attrs : list (string * string)) : list string :=
  match getAttribute "class" attrs with
  | Some v => tokens v ""
  | None => []
  end.

(** A compound selector [tag.class1.class2...], each part optional, and a
    complex selector: compounds joined by the descendant combinator. *)
Record compound : Type := mkCompound {
  sel_tag : option string;
  sel_classes : list string
}.

Definition selector := list compound.

Definition matches_compound (c : compound) (tag : string)
           (attrs : list (string * string)) : bool :=
  match sel_tag c with
  | Some t => t =? tag
  | None => true
  end
  && forallb (fun cl => existsb (String.eqb cl) (classList attrs))
             (sel_classes c).

(** [rest] (outermost compound last) must be matched by ancestors, each
    further out than the one before. *)
Fixpoint matches_ancestors (rest : list compound)
         (anc : list (string * list (string * string))) : bool :=
  match rest with
  | [] => true
  | c :: rest' =>
      (fix find (l : list (string * list (string * string))) : bool :=
         match l with
         | [] => false
         | (t, a) :: l' =>
             (matches_compound c t a && matches_ancestors rest' l')
             || find l'
         end) anc
  end.

Definition matches (sel : selector) (e : element) : bool :=
  match rev sel with
  | [] => false
  | c :: rest =>
      matches_compound c (tagName e) (attributes e)
      && matches_ancestors rest (ancestors e)
  end.

Definition querySelectorAll (sel : selector) (e : element) : list element :=
  filter (matches sel) (descendants e).

Definition querySelector (sel : selector) (e : element) : option element :=
  hd_error (querySelectorAll sel e).

Definition docQuerySelector (sel : selector) (doc : document)
  : option element :=
  hd_error (filter (matches sel) (documentElements doc)).

End Dom.

(** ** The extractor for the scraped source *)

Module Inara.

Import Text RegExp Dom.

Definition tableSelector : selector :=
  [mkCompound (Some "table") ["tablesortercollapsed"]].

Definition rowSelector : selector :=
  [mkCompound (Some "tbody") []; mkCompound (Some "tr") []].

Definition cellSelector : selector := [mkCompound (Some "td") []].

Definition anchorSelector : selector := [mkCompound (Some "a") []].

Definition directionSelector : selector :=
  [mkCompound None ["distancedirection"]].

(** An optional chain [x?.textContent.trim()]: [undefined] when [x] is. *)
Definition trimmedText (x : option element) : value :=
  match x with
  | Some e => VStr (trim (textContent e))
  | None => VUndefined
  end.

(** [parseInt] and [parseFloat] convert their argument to a string first;
    the arguments here are strings or [undefined]. *)
Definition argString (v : value) : string :=
  match v with
  | VStr s => s
  | _ => "undefined"
  end.

(** [cells[6]?.textContent.trim() || ""] *)
Definition distanceText (cells : list element) : string :=
  argString (or_else (trimmedText (nth_error cells 6)) (VStr "")).

(** [distanceMatch ? parseFloat(distanceMatch[1]) : null] *)
Definition distanceOf (text : string) : value :=
  match exec distancePattern text with
  | Some m =>
      VNum (parseFloat
              (argString (match group 1 m with
                          | Some g => VStr g
                          | None => VUndefined
                          end)))
  | None => VNull
  end.

(** The rotation found in the [style] attribute of the first
    [.distancedirection] element of the distance cell, else [null]. *)
Definition directionOf (cell : option element) : value :=
  match cell with
  | Some c6 =>
      match querySelector directionSelector c6 with
      | Some directionSpan =>
          match getAttribute "style" (attributes directionSpan) with
          | Some styleAttr =>
              if truthy (VStr styleAttr) then
                match exec rotatePattern styleAttr with
                | Some m =>
                    VNum (parseInt
                            (argString (match group 1 m with
                                        | Some g => VStr g
                                        | None => VUndefined
                                        end)))
                | None => VNull
                end
              else VNull
          | None => VNull
          end
      | None => VNull
      end
  | None => VNull
  end.

(** [parseInt(cells[i]?.textContent.trim()) || 0] *)
Definition countOf (cells : list element) (i : nat) : value :=
  or_else (VNum (parseInt (argString (trimmedText (nth_error cells i)))))
          (of_Z 0).

(** [cells[i]?.textContent.trim() || ""] *)
Definition labelOf (cells : list element) (i : nat) : value :=
  or_else (trimmedText (nth_error cells i)) (VStr "").

(** The object pushed for a row whose first cell is [cell0]. *)
Definition rowObject (cell0 : element) (cells : list element) : value :=
  let systemName :=
    or_else (trimmedText (querySelector anchorSelector cell0)) (VStr "") in
  let economy := labelOf cells 1 in
  let security := labelOf cells 2 in
  let allegiance := labelOf cells 3 in
  let factions := countOf cells 4 in
  let stations := countOf cells 5 in
  let distance := distanceOf (distanceText cells) in
  let direction := directionOf (nth_error cells 6) in
  VObj [ ("name", systemName);
         ("economy", economy);
         ("security", security);
         ("allegiance", allegiance);
         ("factions", factions);
         ("stations", stations);
         ("distance", distance);
         ("direction", direction) ].

Definition rowCells (row : element) : list element :=
  querySelectorAll cellSelector row.

(** The callback of [rows.forEach]: [Normal None] is the early [return],
    [Normal (Some o)] a [systems.push(o)]. Reading [cells[0].querySelector]
    on a missing cell would throw. *)
Definition processRow (row : element) : completion (option value) :=
  let cells := rowCells row in
  if (List.length cells <? 7)%nat then Normal None
  else
    match nth_error cells 0 with
    | Some cell0 => Normal (Some (rowObject cell0 cells))
    | None =>
        Throw (mkError
          "Cannot read properties of undefined (reading 'querySelector')")
    end.

Fixpoint forEachRow (rows : list element) (systems : list value)
  : completion (list value) :=
  match rows with
  | [] => Normal systems
  | row :: rest =>
      pushed <- processRow row ;;
      forEachRow rest
        (match pushed with
         | Some o => (systems ++ [o])%list
         | None => systems
         end)
  end.

Definition parseDocument (doc : document) : completion (list value) :=
  match docQuerySelector tableSelector doc with
  | None => Normal []
  | Some table => forEachRow (querySelectorAll rowSelector table) []
  end.

Section Parser.

(** The HTML parser of jsdom: from the response body to the document. *)
Variable JSDOM : value -> document.

Definition parseInaraSystemsHtml (html : value) : completion (list value) :=
  parseDocument (JSDOM html).

End Parser.

End Inara.

(** ** The request handlers

    [axios.get] is the only contact with the outside: the [k]-th call made
    while a request is served is answered by [env k], either with the
    parsed body of a 2xx response or with a rejection (network error,
    timeout after 15 s, other status). A handler's effects are the
    sequence of its upstream calls and of the delays before retries;
    console output is left out. The upstream URL is built once from the
    query before the loop starts and is the same at every attempt; the
    model names the upstream instead of spelling out the URL, which [Url]
    below does. Building the URL converts the system name to a string;
    the handlers are modelled from their loop on, the name converted. *)

Module Server.

Import Text Dom Inara Edsm.

Inductive upstream : Type :=
| InaraNearestSystems
| EdsmSphereSystems
| EdsmBodies
| EdsmSystem.

Inductive outcome : Type :=
| Resolved (data : value)
| Rejected (e : error).

Inductive event : Type :=
| Wait (ms : Z)
| Get (u : upstream).

Record world : Type := mkWorld {
  calls : nat;
  trace : list event
}.

Record response : Type := mkResponse {
  status : nat;
  body : value
}.

(** What a handler leaves behind: the response sent, if any. *)
Inductive reply : Type :=
| Sent (r : response)
| Silent.

Definition maxAttempts : nat := 3.

(** [res.json(v)] and [res.status(code).json(v)] *)
Definition json (v : value) : response := mkResponse 200 v.

Definition status_json (code : nat) (v : value) : response :=
  mkResponse code v.

(** [await new Promise(resolve => setTimeout(resolve, attempts * 3000))],
    under its guard [attempts > 0]. *)
Definition delay (attempts : nat) (w : world) : world :=
  if (0 <? attempts)%nat
  then mkWorld (calls w) (trace w ++ [Wait (Z.of_nat attempts * 3000)])
  else w.

Definition settle (o : outcome) : completion value :=
  match o with
  | Resolved data => Normal data
  | Rejected e => Throw e
  end.

(** [lastError?.message || 'All attempts failed'] *)
Definition lastMessage (lastError : option error) : value :=
  or_else (match lastError with
           | Some e => VStr (message e)
           | None => VUndefined
           end)
          (VStr "All attempts failed").

Definition arrayLength (v : value) : nat :=
  match v with
  | VArr items => List.length items
  | _ => 0
  end.

Section Handlers.

Variable JSDOM : value -> document.
Variable env : nat -> outcome.

Definition axios_get (u : upstream) (w : world) : outcome * world :=
  (env (calls w), mkWorld (S (calls w)) (trace w ++ [Get u])).

(** *** /api/inara/nearest-systems *)

Fixpoint inaraLoop (fuel attempts : nat) (lastError : option error)
         (w : world) {struct fuel} : option (reply * world) :=
  if (attempts <? maxAttempts)%nat then
    match fuel with
    | O => None
    | S fuel' =>
        let w1 := delay attempts w in
        let '(o, w2) := axios_get InaraNearestSystems w1 in
        match (data <- settle o ;;
               systems <- parseInaraSystemsHtml JSDOM data ;;
               Normal (json (VArr systems))) with
        | Normal r => Some (Sent r, w2)
        | Throw error => inaraLoop fuel' (S attempts) (Some error) w2
        end
    end
  else
    Some (Sent (status_json 500
            (VObj [ ("error", VStr "Failed to fetch data from Inara.cz");
                    ("details", lastMessage lastError) ])), w).

Definition nearestSystems (fuel : nat) (query : list (string * value))
  : option (reply * world) :=
  let w0 := mkWorld 0 [] in
  let referenceSystem := lookup "referenceSystem" query in
  if negb (truthy referenceSystem) then
    Some (Sent (status_json 400
            (VObj [("error", VStr "Reference system is required")])), w0)
  else inaraLoop fuel 0 None w0.

(** *** /api/edsm/sphere-systems *)

(** The body of the [try] block once the response has arrived. *)
Definition sphereBody (data : value) : completion response :=
  if negb (truthy data) then
    Throw (mkError "Empty response received from EDSM sphere-systems")
  else
    errorCode <- get data "errorCode" ;;
    error <- get data "error" ;;
    if truthy (or_else errorCode error) then
      failure <- newError (or_else error (VStr "EDSM API returned an error")) ;;
      Throw failure
    else
      let systemsArray :=
        match data with
        | VArr items => items
        | _ => []
        end in
      if (List.length systemsArray =? 0)%nat then Normal (json (VArr []))
      else
        formattedSystems <- formatEdsmSystems systemsArray ;;
        Normal (json (VArr formattedSystems)).

Definition sphereFailure (error : error) : response :=
  status_json 500
    (VObj [ ("error", VStr "Failed to fetch data from EDSM sphere-systems");
            ("details", VStr (message error)) ]).

Fixpoint sphereLoop (fuel attempts : nat) (lastError : option error)
         (w : world) {struct fuel} : option (reply * world) :=
  if (attempts <? maxAttempts)%nat then
    match fuel with
    | O => None
    | S fuel' =>
        let w1 := delay attempts w in
        let '(o, w2) := axios_get EdsmSphereSystems w1 in
        match (data <- settle o ;; sphereBody data) with
        | Normal r => Some (Sent r, w2)
        | Throw error =>
            if (maxAttempts <=? S attempts)%nat
            then Some (Sent (sphereFailure error), w2)
            else sphereLoop fuel' (S attempts) (Some error) w2
        end
    end
  else
    Some (Sent (sphereFailure (mkError "All request attempts failed")), w).

Definition sphereSystems (fuel : nat) (query : list (string * value))
  : option (reply * world) :=
  let w0 := mkWorld 0 [] in
  let systemName := lookup "systemName" query in
  if negb (truthy systemName) then
    Some (Sent (status_json 400
            (VObj [("error", VStr "System name is required")])), w0)
  else sphereLoop fuel 0 None w0.

(** *** /api/edsm/bodies *)

Definition isEmptyResponse (data : value) : bool :=
  negb (truthy data) || (isArray data && (arrayLength data =? 0)%nat).

Fixpoint bodiesLoop (fuel attempts : nat) (lastError : option error)
         (w : world) {struct fuel} : option (reply * world) :=
  if (attempts <? maxAttempts)%nat then
    match fuel with
    | O => None
    | S fuel' =>
        let w1 := delay attempts w in
        let '(o, w2) := axios_get EdsmBodies w1 in
        match o with
        | Resolved data =>
            if isEmptyResponse data then
              (* attempts++ inside the try block *)
              if (maxAttempts <=? S attempts)%nat then
                (* the throw lands in the catch clause: attempts++ again *)
                bodiesLoop fuel' (S (S attempts))
                  (Some (mkError "Empty response received from EDSM")) w2
              else
                (* continue *)
                bodiesLoop fuel' (S attempts) lastError w2
            else Some (Sent (json data), w2)
        | Rejected error =>
            bodiesLoop fuel' (S attempts) (Some error) w2
        end
    end
  else
    Some (Sent (status_json 500
            (VObj [ ("error", VStr "Failed to fetch data from EDSM");
                    ("details", lastMessage lastError) ])), w).

Definition bodies (fuel : nat) (query : list (string * value))
  : option (reply * world) :=
  let w0 := mkWorld 0 [] in
  let systemName := lookup "systemName" query in
  if negb (truthy systemName) then
    Some (Sent (status_json 400
            (VObj [("error", VStr "System name is required")])), w0)
  else bodiesLoop fuel 0 None w0.

(** *** /api/edsm/system *)

Fixpoint systemLoop (fuel attempts : nat) (w : world) {struct fuel}
  : option (reply * world) :=
  if (attempts <? maxAttempts)%nat then
    match fuel with
    | O => None
    | S fuel' =>
        let w1 := delay attempts w in
        let '(o, w2) := axios_get EdsmSystem w1 in
        match o with
        | Resolved data => Some (Sent (json data), w2)
        | Rejected error =>
            if (maxAttempts <=? S attempts)%nat then
              Some (Sent (status_json 500
                      (VObj [ ("error",
                               VStr "Failed to fetch system data from EDSM");
                              ("details", VStr (message error)) ])), w2)
            else systemLoop fuel' (S attempts) w2
        end
    end
  else
    (* the loop ends and the handler returns without answering *)
    Some (Silent, w).

Definition system (fuel : nat) (query : list (string * value))
  : option (reply * world) :=
  let w0 := mkWorld 0 [] in
  let systemName := lookup "systemName" query in
  if negb (truthy systemName) then
    Some (Sent (status_json 400
            (VObj [("error", VStr "System name is required")])), w0)
  else systemLoop fuel 0 w0.

(** The route table: one handler for each upstream capability. *)
Definition handle (u : upstream) (fuel : nat) (query : list (string * value))
  : option (reply * world) :=
  match u with
  | InaraNearestSystems => nearestSystems fuel query
  | EdsmSphereSystems => sphereSystems fuel query
  | EdsmBodies => bodies fuel query
  | EdsmSystem => system fuel query
  end.

End Handlers.

End Server.

(** ** Vocabulary of the specification *)

Module Spec.

Import Text RegExp Dom Inara Edsm Server.

(** The value under [key] in a record; [undefined] when the key is
    missing, which is also how a missing key shows in the JSON sent to
    the client (it is left out). *)
Definition field (key : string) (o : value) : value :=
  match o with
  | VObj props => lookup key props
  | _ => VUndefined
  end.

Definition defined (v : value) : Prop := v <> VUndefined.

(** What a JSON-source record supplies. *)
Definition information (system : value) : value := field "information" system.

Definition suppliedAllegiance (system : value) : value :=
  field "allegiance" (information system).

(** "No allegiance value": the key is missing, or holds [null] or the
    empty string. *)
Definition noAllegiance (system : value) : Prop :=
  suppliedAllegiance system = VUndefined
  \/ suppliedAllegiance system = VNull
  \/ suppliedAllegiance system = VStr "".

(** The allegiance rule as the specification words it. *)
Definition allegianceRule (system : value) : Prop :=
  forall o, formatEdsmSystem system = Normal o ->
    (field "allegiance" o = VStr "Independent" <-> noAllegiance system)
    /\ (~ noAllegiance system ->
        field "allegiance" o = suppliedAllegiance system).

Definition canonicalFields : list string :=
  [ "name"; "economy"; "security"; "allegiance"; "factions"; "stations";
    "distance"; "direction" ].

(** "Every canonical field has a defined value", for the record the
    normalizer builds from one JSON-source record. *)
Definition jsonRecordComplete (system : value) : Prop :=
  forall o, formatEdsmSystem system = Normal o ->
    forall key, In key canonicalFields \/ key = "bodyCount" ->
                defined (field key o).

(** The body rows of the systems table, in document order; none when the
    page has no such table. *)
Definition tableRows (doc : document) : list element :=
  match docQuerySelector tableSelector doc with
  | Some table => querySelectorAll rowSelector table
  | None => []
  end.

Definition sevenCells (row : element) : bool :=
  (7 <=? List.length (rowCells row))%nat.

(** The trimmed text of cell [i] of a row. *)
Definition cellString (cells : list element) (i : nat) : string :=
  match nth_error cells i with
  | Some e => trim (textContent e)
  | None => EmptyString
  end.

(** The trimmed text of the anchor in the first cell, "" without one. *)
Definition anchorString (cells : list element) : string :=
  match nth_error cells 0 with
  | Some cell0 =>
      match querySelector anchorSelector cell0 with
      | Some a => trim (textContent a)
      | None => EmptyString
      end
  | None => EmptyString
  end.

(** The [style] attribute of the direction marker of the distance cell. *)
Definition directionStyle (cells : list element) : option string :=
  match nth_error cells 6 with
  | Some cell6 =>
      match querySelector directionSelector cell6 with
      | Some directionSpan => getAttribute "style" (attributes directionSpan)
      | None => None
      end
  | None => None
  end.

(** A count field read from a cell text: never [NaN], and 0 when the
    text has no leading integer. *)
Definition countFrom (text : string) (v : value) : Prop :=
  v <> VNum NaN /\ (parseInt text = NaN -> v = of_Z 0).

(** The record [o] is the one extracted from [row]. *)
Definition extractedFrom (row : element) (o : value) : Prop :=
  let cells := rowCells row in
  field "name" o = VStr (anchorString cells)
  /\ field "economy" o = VStr (cellString cells 1)
  /\ field "security" o = VStr (cellString cells 2)
  /\ field "allegiance" o = VStr (cellString cells 3)
  /\ countFrom (cellString cells 4) (field "factions" o)
  /\ countFrom (cellString cells 5) (field "stations" o)
  /\ (exec distancePattern (cellString cells 6) = None ->
      field "distance" o = VNull)
  /\ (match directionStyle cells with
      | Some style => exec rotatePattern style = None
      | None => True
      end -> field "direction" o = VNull).

(** The data cells below a row: the [td] elements among its descendants
    in document order, those of a table nested in the row included; a
    header cell ([th]) is not one of them. *)
Definition dataCells (row : element) : list element :=
  filter (fun e => tagName e =? "td") (descendants row).

(** The child elements of an element. *)
Definition childElements (e : element) : list element :=
  flat_map (fun n =>
              match n with
              | ElementNode tag attrs children =>
                  [mkElement tag attrs children
                             ((tagName e, attributes e) :: ancestors e)]
              | _ => []
              end) (childNodes e).

(** The cells of a row as a table has them: its [td] and [th] children. *)
Definition ownCells (row : element) : list element :=
  filter (fun c => (tagName c =? "td") || (tagName c =? "th"))
         (childElements row).

(** The record [o] is the one the cells [cells] of a row give. *)
Definition recordOf (cells : list element) (o : value) : Prop :=
  field "name" o = VStr (anchorString cells)
  /\ field "economy" o = VStr (cellString cells 1)
  /\ field "security" o = VStr (cellString cells 2)
  /\ field "allegiance" o = VStr (cellString cells 3)
  /\ countFrom (cellString cells 4) (field "factions" o)
  /\ countFrom (cellString cells 5) (field "stations" o)
  /\ (exec distancePattern (cellString cells 6) = None ->
      field "distance" o = VNull)
  /\ (match directionStyle cells with
      | Some style => exec rotatePattern style = None
      | None => True
      end -> field "direction" o = VNull).

Definition atLeastSeven (cells : element -> list element) (row : element)
  : bool :=
  (7 <=? List.length (cells row))%nat.

(** The row rule as the specification words it, the cells of a row being
    its own cells: the records are those of the body rows with 7 cells or
    more, one for each, in document order. *)
Definition rowRule (doc : document) : Prop :=
  forall systems,
    parseDocument doc = Normal systems ->
    Forall2 (fun row o => recordOf (ownCells row) o)
            (filter (atLeastSeven ownCells) (tableRows doc)) systems.

(** A page whose one row has five cells of its own, the second of which
    holds a table of one row of two cells. *)
Definition nestedPage : document :=
  let td (children : list node) := ElementNode "td" [] children in
  [ ElementNode "html" []
      [ ElementNode "body" []
          [ ElementNode "table" [("class", "tablesortercollapsed")]
              [ ElementNode "tbody" []
                  [ ElementNode "tr" []
                      [ td [ElementNode "a" [] [TextNode "Sol"]];
                        td [ ElementNode "table" []
                               [ ElementNode "tbody" []
                                   [ ElementNode "tr" []
                                       [ td [TextNode "Industrial"];
                                         td [TextNode "High"] ] ] ] ];
                        td [TextNode "Federation"];
                        td [TextNode "4"];
                        td [TextNode "3"] ] ] ] ] ] ].

(** A page whose one row has seven cells of its own, the first of them a
    header cell. *)
Definition headerCellPage : document :=
  let td (text : string) := ElementNode "td" [] [TextNode text] in
  [ ElementNode "html" []
      [ ElementNode "body" []
          [ ElementNode "table" [("class", "tablesortercollapsed")]
              [ ElementNode "tbody" []
                  [ ElementNode "tr" []
                      [ ElementNode "th" []
                          [ElementNode "a" [] [TextNode "Sol"]];
                        td "Industrial"; td "High"; td "Federation";
                        td "4"; td "3"; td "12.5 Ly" ] ] ] ] ] ].

(** The strings a pattern denotes. *)
Inductive lang : regex -> string -> Prop :=
| lang_Eps : lang Eps EmptyString
| lang_Chr a : lang (Chr a) (String a EmptyString)
| lang_Digit a : isDigit a = true -> lang Digit (String a EmptyString)
| lang_Space a : isWhiteSpace a = true -> lang Space (String a EmptyString)
| lang_Seq r1 r2 s1 s2 :
    lang r1 s1 -> lang r2 s2 -> lang (Seq r1 r2) (s1 ++ s2)
| lang_Opt_none r : lang (Opt r) EmptyString
| lang_Opt_some r s : lang r s -> lang (Opt r) s
| lang_Star_nil r : lang (Star r) EmptyString
| lang_Star_cons r s1 s2 :
    lang r s1 -> lang (Star r) s2 -> lang (Star r) (s1 ++ s2)
| lang_Plus r s1 s2 :
    lang r s1 -> lang (Star r) s2 -> lang (Plus r) (s1 ++ s2)
| lang_Group i r s : lang r s -> lang (Group i r) s.

(** Every capturing group of [r] only captures strings that satisfy [P]. *)
Fixpoint groups_ok (P : nat -> string -> Prop) (r : regex) : Prop :=
  match r with
  | Eps | Chr _ | Digit | Space => True
  | Seq r1 r2 => groups_ok P r1 /\ groups_ok P r2
  | Opt r1 | Star r1 | Plus r1 => groups_ok P r1
  | Group i r1 => (forall g, lang r1 g -> P i g) /\ groups_ok P r1
  end.

(** Group [i] is set on every way through [r]. *)
Fixpoint binds (i : nat) (r : regex) : bool :=
  match r with
  | Eps | Chr _ | Digit | Space | Opt _ | Star _ => false
  | Seq r1 r2 => binds i r1 || binds i r2
  | Plus r1 => binds i r1
  | Group j r1 => (j =? i)%nat || binds i r1
  end.

Definition good (P : nat -> string -> Prop) (c : captures) : Prop :=
  Forall (fun entry => P (fst entry) (snd entry)) c.

(** What a sound matcher for the language [L] guarantees when it
    succeeds from captures [c] with continuation [k]: it consumed a
    string of [L], the captures still satisfy [P], the groups named by
    [keeps] and those set before are set, and the continuation succeeded
    on the rest. *)
Definition sound_for (P : nat -> string -> Prop) (L : string -> Prop)
           (keeps : nat -> bool) (m : matcher) : Prop :=
  forall s c k x,
    good P c -> m s c k = Some x ->
    exists s1 s2 c',
      s = s1 ++ s2 /\ L s1 /\ good P c'
      /\ (forall i, keeps i = true \/ group i c <> None -> group i c' <> None)
      /\ k s2 c' = Some x.

Fixpoint every (p : ascii -> bool) (s : string) : bool :=
  match s with
  | String c rest => p c && every p rest
  | EmptyString => true
  end.

(** The text holds a number with a decimal point followed by "Ly". *)
Definition hasDecimalDistance (text : string) : Prop :=
  exists pre d1 d2 ws post,
    text = pre ++ (d1 ++ "." ++ d2) ++ ws ++ "Ly" ++ post
    /\ every isDigit d1 = true /\ d1 <> EmptyString
    /\ every isDigit d2 = true /\ d2 <> EmptyString
    /\ every isWhiteSpace ws = true.

Definition noDecimalPoint (text : string) : Prop :=
  every (fun c => negb (c =? ".")%char) text = true.

Definition integer (v : value) : Prop := exists z : Z, v = of_Z z.

Definition integerOrInfinite (v : value) : Prop :=
  integer v \/ exists negative, v = VNum (Inf negative).

Definition nonNegativeInteger (v : value) : Prop :=
  exists z : Z, v = of_Z z /\ (0 <= z)%Z.

Definition directionInRange (v : value) : Prop :=
  v = VNull \/ exists z : Z, v = of_Z z /\ (-180 <= z <= 180)%Z.

(** The invariant of a scraped row as the specification words it. *)
Definition scrapedRowInvariant (doc : document) : Prop :=
  forall systems o,
    parseDocument doc = Normal systems -> In o systems ->
    nonNegativeInteger (field "factions" o)
    /\ nonNegativeInteger (field "stations" o)
    /\ directionInRange (field "direction" o).

(** A page with one row: -5 factions, 3 stations, 12.5 Ly away, and a
    direction marker turned by 270 degrees. *)
Definition samplePage : document :=
  let td (children : list node) := ElementNode "td" [] children in
  [ ElementNode "html" []
      [ ElementNode "body" []
          [ ElementNode "table" [("class", "tablesorter tablesortercollapsed")]
              [ ElementNode "tbody" []
                  [ ElementNode "tr" []
                      [ td [ElementNode "a" [("href", "/elite/starsystem/1/")]
                                        [TextNode "Sol"]];
                        td [TextNode "Industrial"];
                        td [TextNode "High"];
                        td [TextNode "Federation"];
                        td [TextNode "-5"];
                        td [TextNode "3"];
                        td [ TextNode "12.5 Ly";
                             ElementNode "span"
                               [ ("class", "distancedirection");
                                 ("style", "transform: rotate(270deg);") ]
                               [] ] ] ] ] ] ] ].

(** The record extracted from the row of [samplePage]. *)
Definition sampleRecord : value :=
  Eval vm_compute in
    match parseDocument samplePage with
    | Normal [o] => o
    | _ => VUndefined
    end.

(** A JSON-source record with a name and nothing else, normalized. *)
Definition solRecord : value := VObj [("name", VStr "Sol")].

Definition solNormalized : value :=
  Eval vm_compute in
    match formatEdsmSystem solRecord with
    | Normal o => o
    | Throw _ => VUndefined
    end.

(** The cells of a row whose distance cell reads "12 Ly". *)
Definition wholeNumberCells : list element :=
  let td (text : string) := mkElement "td" [] [TextNode text] [] in
  [ td "Sol"; td "Industrial"; td "High"; td "Federation"; td "4"; td "3";
    td "12 Ly" ].

(** The query parameter that names the system, for each endpoint. *)
Definition requiredParam (u : upstream) : string :=
  match u with
  | InaraNearestSystems => "referenceSystem"
  | _ => "systemName"
  end.

(** The effects of [n] attempts in a row: the first call at once, each
    later one after a wait of 3000 ms times the number of attempts
    already made. *)
Fixpoint retries (u : upstream) (made count : nat) : list event :=
  match count with
  | O => []
  | S count' =>
      Wait (Z.of_nat made * 3000) :: Get u :: retries u (S made) count'
  end.

Definition attemptTrace (u : upstream) (n : nat) : list event :=
  match n with
  | O => []
  | S m => Get u :: retries u 1 m
  end.

(** One attempt seen from outside: given the outcome of its upstream
    call, either the response the handler sends, or the error the attempt
    fails with. An empty body on the bodies endpoint fails the attempt;
    the error object is only built on the last attempt. *)
Definition attempt (JSDOM : value -> document) (u : upstream) (o : outcome)
  : completion response :=
  match u with
  | InaraNearestSystems =>
      data <- settle o ;;
      systems <- parseInaraSystemsHtml JSDOM data ;;
      Normal (json (VArr systems))
  | EdsmSphereSystems =>
      data <- settle o ;; sphereBody data
  | EdsmBodies =>
      data <- settle o ;;
      if isEmptyResponse data
      then Throw (mkError "Empty response received from EDSM")
      else Normal (json data)
  | EdsmSystem =>
      data <- settle o ;; Normal (json data)
  end.

Definition failureText (u : upstream) : string :=
  match u with
  | InaraNearestSystems => "Failed to fetch data from Inara.cz"
  | EdsmSphereSystems => "Failed to fetch data from EDSM sphere-systems"
  | EdsmBodies => "Failed to fetch data from EDSM"
  | EdsmSystem => "Failed to fetch system data from EDSM"
  end.

(** The [details] sent when the last attempt failed with [e]: the
    nearest-systems and bodies handlers fall back on a fixed text when
    the message is empty. *)
Definition detailsFor (u : upstream) (e : error) : value :=
  match u with
  | InaraNearestSystems | EdsmBodies =>
      or_else (VStr (message e)) (VStr "All attempts failed")
  | EdsmSphereSystems | EdsmSystem => VStr (message e)
  end.

Definition exhausted (u : upstream) (e : error) : response :=
  status_json 500
    (VObj [ ("error", VStr (failureText u)); ("details", detailsFor u e) ]).

(** What a run of a handler amounts to: [n] attempts were made, the first
    [n - 1] failed, and the last one either produced the response or was
    the last of the budget and failed too. *)
Definition run_of (JSDOM : value -> document) (env : nat -> outcome)
           (u : upstream) (r : response) (w : world) (n : nat) : Prop :=
  (1 <= n <= maxAttempts)%nat
  /\ calls w = n
  /\ trace w = attemptTrace u n
  /\ (forall k, (k < n - 1)%nat ->
                exists e, attempt JSDOM u (env k) = Throw e)
  /\ (attempt JSDOM u (env (n - 1)) = Normal r
      \/ (n = maxAttempts
          /\ exists e, attempt JSDOM u (env (n - 1)) = Throw e
                       /\ r = exhausted u e)).



(** "The normalizer cannot fail", for one input array. *)
Definition normalizerTotal (edsmSystems : list value) : Prop :=
  exists out,
    formatEdsmSystems edsmSystems = Normal out
    /\ List.length out = List.length edsmSystems.

End Spec.

(** ** The upstream URLs

    Each handler builds its upstream URL from the query before its loop
    starts. The system name is converted to a string and escaped; a name
    that cannot be converted leaves no URL but the TypeError of the
    conversion. *)

Module Url.

(** The characters [encodeURIComponent] leaves as they are: letters,
    digits and [- _ . ! ~ * ' ( )]. *)
Definition isUnreserved (c : ascii) : bool :=
  let n := nat_of_ascii c in
  (((65 <=? n) && (n <=? 90)) || ((97 <=? n) && (n <=? 122))
   || ((48 <=? n) && (n <=? 57))
   || (n =? 45) || (n =? 95) || (n =? 46) || (n =? 33) || (n =? 126)
   || (n =? 42) || (n =? 39) || (n =? 40) || (n =? 41))%nat.

Definition hexDigit (n : nat) : ascii :=
  ascii_of_nat (if (n <? 10)%nat then 48 + n else 55 + n).

(** The escape [%XY] of one octet. *)
Definition percent (octet : nat) : string :=
  String "%" (String (hexDigit (octet / 16))
                     (String (hexDigit (octet mod 16)) EmptyString)).

(** One code unit: itself when unreserved, else the escapes of the octets
    of its UTF-8 form (one octet below 128, two from 128 to 255). *)
Definition encodeUnit (c : ascii) : string :=
  let n := nat_of_ascii c in
  if isUnreserved c then String c EmptyString
  else if (n <? 128)%nat then percent n
  else percent (192 + n / 64) ++ percent (128 + n mod 64).

Fixpoint encodeText (s : string) : string :=
  match s with
  | String c rest => encodeUnit c ++ encodeText rest
  | EmptyString => EmptyString
  end.

(** [encodeURIComponent(v)]: the argument is converted to a string first. *)
Definition encodeURIComponent (v : value) : completion string :=
  text <- toString v ;; Normal (encodeText text).

(** [req.query.anyPopulation === 'true'] *)
Definition isTrueText (v : value) : bool :=
  match v with
  | VStr s => s =? "true"
  | _ => false
  end.

(** The template literals: the substitutions are evaluated and converted
    from left to right, and the first conversion that throws ends the
    evaluation. *)
Definition inaraUrl (query : list (string * value)) : completion string :=
  let referenceSystem := lookup "referenceSystem" query in
  let anyPopulation := isTrueText (lookup "anyPopulation" query) in
  let populationParam := if anyPopulation then "0" else "-1" in
  name <- encodeURIComponent referenceSystem ;;
  Normal ("https://inara.cz/elite/nearest-starsystems/?formbrief=1&ps1="
            ++ name
            ++ "&pi3=&pi4=0&pi5=0&pi7=0&pi1=0&pi23=" ++ populationParam
            ++ "&pi6=0&pi26=0&ps3=&pi24=0").

Definition sphereUrl (query : list (string * value)) : completion string :=
  let systemName := lookup "systemName" query in
  let radius := or_else (lookup "radius" query) (of_Z 100) in
  let minRadius := or_else (lookup "minRadius" query) (of_Z 0) in
  name <- encodeURIComponent systemName ;;
  radiusText <- toString radius ;;
  minRadiusText <- toString minRadius ;;
  Normal ("https://www.edsm.net/api-v1/sphere-systems?systemName="
            ++ name
            ++ "&radius=" ++ radiusText
            ++ "&minRadius=" ++ minRadiusText
            ++ "&showInformation=1").

Definition bodiesUrl (query : list (string * value)) : completion string :=
  let systemName := lookup "systemName" query in
  name <- encodeURIComponent systemName ;;
  Normal ("https://www.edsm.net/api-system-v1/bodies?systemName=" ++ name).

Definition systemUrl (query : list (string * value)) : completion string :=
  let systemName := lookup "systemName" query in
  name <- encodeURIComponent systemName ;;
  Normal ("https://www.edsm.net/api-v1/system?showCoordinates=1&systemName="
            ++ name).

End Url.

(** ** The Earth-like-world finder

    [scraper/elw-finder.js]: a script that asks the sphere-systems API for
    the systems around a fixed origin and, for each unpopulated one, asks
    the bodies API whether it holds an Earth-like world. [fetch] is
    answered by an environment, call by call; the effects of a run are
    the URLs it requests, in order; console output is left out but for
    the two ways the script can end. *)

Module ElwFinder.

Import Url.

Definition ORIGIN : string := "HIP 114587".

(** [ORIGIN] is a string: [encodeURIComponent] has nothing to convert. *)
Definition ALL_SYSTEMS_URL : string :=
  "https://www.edsm.net/api-v1/sphere-systems?systemName="
    ++ encodeText ORIGIN
    ++ "&radius=100&minRadius=0&showInformation=1".

(** What [fetch] gives: a rejection, or a response with its status and
    the outcome of [response.json()]. *)
Inductive fetched : Type :=
| FetchRejected (e : error)
| Fetched (status : nat) (json : completion value).

(** How the script ends when it does not throw. *)
Inductive report : Type :=
| EmptyResponse                  (* "EDSM API returned empty response" *)
| Found (results : list value).  (* "Found n systems ..." *)

(** [v.length] *)
Definition lengthOf (v : value) : completion value :=
  match v with
  | VUndefined =>
      Throw (mkError "Cannot read properties of undefined (reading 'length')")
  | VNull =>
      Throw (mkError "Cannot read properties of null (reading 'length')")
  | VArr items => Normal (of_Z (Z.of_nat (List.length items)))
  | VStr s => Normal (of_Z (Z.of_nat (String.length s)))
  | VObj props => Normal (lookup "length" props)
  | _ => Normal VUndefined
  end.

Fixpoint characters (s : string) : list value :=
  match s with
  | String c rest => VStr (String c EmptyString) :: characters rest
  | EmptyString => []
  end.

(** The values a [for ... of] loop over [v] goes through; [what] is the
    expression iterated, for the error message. *)
Definition iterate (what : string) (v : value) : completion (list value) :=
  match v with
  | VArr items => Normal items
  | VStr s => Normal (characters s)
  | _ => Throw (mkError (what ++ " is not iterable"))
  end.

Definition isUndefined (v : value) : bool :=
  match v with
  | VUndefined => true
  | _ => false
  end.

(** [v === 0] *)
Definition isZero (v : value) : bool :=
  match v with
  | VNum (Fin m _) => (m =? 0)%Z
  | _ => false
  end.

(** [v === "Earth-like world"] *)
Definition isEarthLike (v : value) : bool :=
  match v with
  | VStr s => s =? "Earth-like world"
  | _ => false
  end.

(** [system.information?.population] *)
Definition population (system : value) : completion value :=
  information <- get system "information" ;;
  if is_nullish information then Normal VUndefined
  else get information "population".

(** The inner loop: does a body with the subtype come before any body
    that cannot be read? *)
Fixpoint findEarthLike (bodies : list value) : completion bool :=
  match bodies with
  | [] => Normal false
  | body :: rest =>
      subType <- get body "subType" ;;
      if isEarthLike subType then Normal true else findEarthLike rest
  end.

(** What the body of the outer loop does with the answer of the bodies
    API: [None] for the [continue] on an empty list. *)
Definition inspectBodies (bodyData : value) : completion (option bool) :=
  bodies <- get bodyData "bodies" ;;
  len <- lengthOf bodies ;;
  if negb (truthy len) then Normal None
  else
    items <- iterate "bodyData.bodies" bodies ;;
    found <- findEarthLike items ;;
    Normal (Some found).

Section Run.

Variable env : nat -> fetched.

(** [makeHTTPRequest(url)], given the URLs requested so far. *)
Definition makeHTTPRequest (url : string) (urls : list string)
  : completion value * list string :=
  let urls' := (urls ++ [url])%list in
  match env (List.length urls) with
  | FetchRejected e => (Throw e, urls')
  | Fetched status json =>
      if negb (status =? 200)%nat then (Normal VUndefined, urls')
      else (json, urls')
  end.

(** The bodies URL of a system, as the loop builds it. *)
Definition bodiesUrlOf (system : value) : completion string :=
  name <- get system "name" ;;
  encoded <- encodeURIComponent name ;;
  Normal ("https://www.edsm.net/api-system-v1/bodies?systemName=" ++ encoded).

(** The outer loop. The population is read twice in the source; the
    reads have no effect. The name is converted to a string for the log
    line "Checking bodies in system ..." and again for the URL, both
    before the request; the name pushed is the value itself. *)
Fixpoint forEachSystem (systems : list value) (results : list value)
         (urls : list string) : completion report * list string :=
  match systems with
  | [] => (Normal (Found results), urls)
  | system :: rest =>
      match population system with
      | Throw e => (Throw e, urls)
      | Normal p =>
          if negb (isZero p) || isUndefined p
          then forEachSystem rest results urls
          else
            match (name <- get system "name" ;;
                   logged <- toString name ;;
                   bodiesUrl <- bodiesUrlOf system ;;
                   Normal (name, bodiesUrl)) with
            | Throw e => (Throw e, urls)
            | Normal (name, bodiesUrl) =>
                let '(answer, urls1) := makeHTTPRequest bodiesUrl urls in
                match (bodyData <- answer ;; inspectBodies bodyData) with
                | Throw e => (Throw e, urls1)
                | Normal (Some true) =>
                    forEachSystem rest (results ++ [name])%list urls1
                | Normal _ => forEachSystem rest results urls1
                end
            end
      end
  end.

Definition main : completion report * list string :=
  let results := [] in
  let '(answer, urls) := makeHTTPRequest ALL_SYSTEMS_URL [] in
  match answer with
  | Throw e => (Throw e, urls)
  | Normal allSystems =>
      match lengthOf allSystems with
      | Throw e => (Throw e, urls)
      | Normal len =>
          if isUndefined len then (Normal EmptyResponse, urls)
          else
            match iterate "allSystems" allSystems with
            | Throw e => (Throw e, urls)
            | Normal systems => forEachSystem systems results urls
            end
      end
  end.

End Run.

End ElwFinder.

(** ** Vocabulary of the further properties *)

Module More.

Import Text RegExp Dom Inara Edsm Server Spec Url ElwFinder.

(** A text without white space at either end. *)
Definition trimmed (s : string) : Prop :=
  (forall c rest, s = String c rest -> isWhiteSpace c = false)
  /\ (forall front c, s = front ++ String c EmptyString ->
                      isWhiteSpace c = false).

Definition labelFields : list string :=
  [ "name"; "economy"; "security"; "allegiance" ].

(** The style holds "rotate(", an optional minus sign, digits and "deg)". *)
Definition hasRotation (style : string) : Prop :=
  exists pre sign d post,
    style = pre ++ "rotate(" ++ (sign ++ d) ++ "deg)" ++ post
    /\ (sign = EmptyString \/ sign = "-")
    /\ every isDigit d = true /\ d <> EmptyString.

(** A matcher finds every string of [L] when what follows is accepted by
    the continuation whatever the captures. *)
Definition complete_for (L : string -> Prop) (m : matcher) : Prop :=
  forall s1, L s1 ->
  forall s2 c k, (forall c', k s2 c' <> None) -> m (s1 ++ s2) c k <> None.

(** A character that cannot end or start a part of a URL: unreserved, or
    the percent sign of an escape. *)
Definition urlSafe (c : ascii) : bool :=
  isUnreserved c || (c =? "%")%char.

Definition hexValue (c : ascii) : option nat :=
  let n := nat_of_ascii c in
  if ((48 <=? n) && (n <=? 57))%nat then Some (n - 48)
  else if ((65 <=? n) && (n <=? 70))%nat then Some (n - 55)
  else None.

(** The first code unit of an encoded text and what follows it. *)
Definition decodeHead (s : string) : option (ascii * string) :=
  match s with
  | String "%" (String h1 (String h2 rest)) =>
      match hexValue h1, hexValue h2 with
      | Some a, Some b =>
          let octet := 16 * a + b in
          if (octet <? 128)%nat then Some (ascii_of_nat octet, rest)
          else
            match rest with
            | String "%" (String h3 (String h4 rest')) =>
                match hexValue h3, hexValue h4 with
                | Some a', Some b' =>
                    Some (ascii_of_nat
                            ((octet - 192) * 64 + (16 * a' + b' - 128)),
                          rest')
                | _, _ => None
                end
            | _ => None
            end
      | _, _ => None
      end
  | String c rest => Some (c, rest)
  | EmptyString => None
  end.

(** How many times [c] occurs in [s]. *)
Fixpoint occurrences (c : ascii) (s : string) : nat :=
  match s with
  | String x rest => (if (x =? c)%char then 1 else 0) + occurrences c rest
  | EmptyString => 0
  end.

(** The characters that give a URL its structure. *)
Definition isSeparator (c : ascii) : bool :=
  ((c =? "&") || (c =? "=") || (c =? "?") || (c =? "#") || (c =? "/")
   || (c =? "+") || (c =? " "))%char.

(** The URL of endpoint [u] for a query. *)
Definition upstreamUrl (u : upstream) (query : list (string * value))
  : completion string :=
  match u with
  | InaraNearestSystems => inaraUrl query
  | EdsmSphereSystems => sphereUrl query
  | EdsmBodies => bodiesUrl query
  | EdsmSystem => systemUrl query
  end.

(** The time a run spends waiting between attempts, in ms. *)
Fixpoint totalWait (events : list event) : Z :=
  match events with
  | [] => 0
  | Wait ms :: rest => ms + totalWait rest
  | Get _ :: rest => totalWait rest
  end.

(** The text does not go on with a decimal digit, nor, after a lone "0",
    with the [x] of a hexadecimal prefix. *)
Definition endsNumeral (d rest : string) : Prop :=
  match rest with
  | EmptyString => True
  | String c _ =>
      isDigit c = false
      /\ (d = "0" -> c <> "x"%char /\ c <> "X"%char)
  end.

(** A run of [n] nines. *)
Fixpoint nines (n : nat) : string :=
  match n with
  | O => EmptyString
  | S n' => String "9" (nines n')
  end.

(** The cells of a row whose factions cell reads "12 factions". *)
Definition annotatedCells : list element :=
  let td (text : string) := mkElement "td" [] [TextNode text] [] in
  [ td "Sol"; td "Industrial"; td "High"; td "Federation";
    td "12 factions"; td "1,234"; td "4.5 Ly" ].

(** A system whose population is the number 0. *)
Definition unpopulated (system : value) : bool :=
  match population system with
  | Normal p => isZero p
  | Throw _ => false
  end.


(** The body list in the answer to the [k]-th request. *)
Definition bodiesOf (env : nat -> fetched) (k : nat) : list value :=
  match env k with
  | Fetched _ (Normal data) =>
      match field "bodies" data with
      | VArr bodies => bodies
      | _ => []
      end
  | _ => []
  end.

Definition hasEarthLike (bodies : list value) : bool :=
  existsb (fun body => isEarthLike (field "subType" body)) bodies.

(** The names of the systems of [targets] whose body list holds an
    Earth-like world, the list of the first being in the answer to
    request [k], that of the second in the next, and so on. *)
Fixpoint selected (env : nat -> fetched) (k : nat) (targets : list value)
  : list value :=
  match targets with
  | [] => []
  | system :: rest =>
      ((if hasEarthLike (bodiesOf env k) then [field "name" system] else [])
         ++ selected env (S k) rest)%list
  end.

(** An answer of the bodies API that can be read: status 200 and a body
    list without null entries. *)
Definition readableBodies (f : fetched) : Prop :=
  exists data bodies,
    f = Fetched 200 (Normal data)
    /\ field "bodies" data = VArr bodies
    /\ Forall (fun body => is_nullish body = false) bodies.

(** Three systems around the origin: an unpopulated one with an
    Earth-like world, a populated one, and an unpopulated one without. *)
Definition sampleSystems : list value :=
  [ VObj [ ("name", VStr "Alpha");
           ("information", VObj [("population", of_Z 0)]) ];
    VObj [ ("name", VStr "Beta");
           ("information", VObj [("population", of_Z 12000)]) ];
    VObj [ ("name", VStr "Gamma Two");
           ("information", VObj [("population", of_Z 0)]) ] ].

Definition sampleFetch (k : nat) : fetched :=
  match k with
  | 0 => Fetched 200 (Normal (VArr sampleSystems))
  | 1 => Fetched 200 (Normal (VObj
           [("bodies", VArr [ VObj [("subType", VStr "Icy body")];
                              VObj [("subType", VStr "Earth-like world")] ])]))
  | _ => Fetched 200 (Normal (VObj [("bodies", VArr [])]))
  end.

(** The same, with the bodies API answering 404. *)
Definition failingFetch (k : nat) : fetched :=
  match k with
  | 0 => Fetched 200 (Normal (VArr sampleSystems))
  | _ => Fetched 404 (Normal (VObj []))
  end.

End More.

Import Text RegExp Dom Inara Edsm Server Spec Url ElwFinder More.

(** * Properties *)

(** ** Number values *)

Lemma roundHalfEven_nonneg (num den : Z) :
  (0 <= num)%Z -> (0 < den)%Z -> (0 <= roundHalfEven num den)%Z.
Proof.
  intros Hnum Hden. unfold roundHalfEven.
  pose proof (Z.div_pos num den Hnum Hden) as Hq.
  destruct (2 * (num mod den) <? den)%Z; [exact Hq|].
  destruct (den <? 2 * (num mod den))%Z; [lia|].
  destruct (Z.even (num / den)); lia.
Qed.

Lemma roundHalfEven_whole (num : Z) : roundHalfEven num 1 = num.
Proof.
  unfold roundHalfEven. rewrite Z.mod_1_r, Z.div_1_r. reflexivity.
Qed.

Lemma scale_positive (p q k : Z) :
  (0 <= p)%Z -> (0 < q)%Z ->
  (0 <= fst (scale p q k))%Z /\ (0 < snd (scale p q k))%Z.
Proof.
  intros Hp Hq. unfold scale. destruct (Z.ltb_spec k 0); simpl.
  - split; [|exact Hq]. apply Z.mul_nonneg_nonneg; [exact Hp|].
    apply Z.pow_nonneg. lia.
  - split; [exact Hp|]. apply Z.mul_pos_pos; [exact Hq|].
    apply Z.pow_pos_nonneg; lia.
Qed.

Lemma halve_nonneg (fuel : nat) (n e : Z) :
  (0 <= n)%Z -> (0 <= fst (halve fuel n e))%Z.
Proof.
  revert n e. induction fuel as [|fuel IH]; intros n e Hn; simpl.
  - exact Hn.
  - destruct ((e <? 0)%Z && Z.even n); [|exact Hn].
    apply IH. apply Z.div_pos; lia.
Qed.

(** Halving undoes a scaling by a power of two. *)
Lemma halve_pow2 (k : nat) (p : Z) :
  halve k (p * 2 ^ Z.of_nat k) (- Z.of_nat k) = (p, 0%Z).
Proof.
  induction k as [|k IH].
  - simpl. rewrite Z.mul_1_r. reflexivity.
  - cbn [halve].
    assert (E : (p * 2 ^ Z.of_nat (S k) = 2 * (p * 2 ^ Z.of_nat k))%Z).
    { rewrite Nat2Z.inj_succ, Z.pow_succ_r by lia. ring. }
    rewrite E.
    replace (- Z.of_nat (S k) <? 0)%Z with true
      by (symmetry; apply Z.ltb_lt; lia).
    rewrite Z.even_mul. cbn [Z.even orb andb].
    replace (2 * (p * 2 ^ Z.of_nat k) / 2)%Z with (p * 2 ^ Z.of_nat k)%Z
      by (rewrite (Z.mul_comm 2), Z.div_mul by lia; reflexivity).
    replace (- Z.of_nat (S k) + 1)%Z with (- Z.of_nat k)%Z by lia.
    exact IH.
Qed.

Lemma dyadic_shape (neg : bool) (n e : Z) :
  (0 <= n)%Z ->
  exists m e', (0 <= m)%Z /\ dyadic neg n e = Fin (signed neg m) e'.
Proof.
  intros Hn. unfold dyadic. destruct (0 <=? e)%Z eqn:He.
  - eexists. eexists. split; [|reflexivity].
    apply Z.mul_nonneg_nonneg; [exact Hn|]. apply Z.pow_nonneg. lia.
  - pose proof (halve_nonneg (Z.to_nat (- e)) n e Hn) as Hh.
    destruct (halve (Z.to_nat (- e)) n e) as [n' e']. simpl in Hh.
    eexists. eexists. split; [|reflexivity].
    apply Z.mul_nonneg_nonneg; [exact Hh|]. apply Z.pow_nonneg. lia.
Qed.

(** A Number value is never [NaN], and has the sign it was given. *)
Lemma binary64_shape (neg : bool) (p q : Z) :
  (0 <= p)%Z -> (0 < q)%Z ->
  binary64 neg p q = Inf neg
  \/ exists m e, (0 <= m)%Z /\ binary64 neg p q = Fin (signed neg m) e.
Proof.
  intros Hp Hq. unfold binary64.
  destruct (p =? 0)%Z.
  - right. exists 0%Z, 0%Z. split; [lia|]. destruct neg; reflexivity.
  - pose proof (scale_positive p q (lastPlace p q) Hp Hq) as [Hnum Hden].
    destruct (scale p q (lastPlace p q)) as [num den]. simpl in Hnum, Hden.
    destruct ((0 <=? lastPlace p q)
              && (2 ^ 1024 <=? roundHalfEven num den * 2 ^ lastPlace p q))%Z.
    + left. reflexivity.
    + right. apply dyadic_shape. apply roundHalfEven_nonneg; assumption.
Qed.

(** The Number value of an integer is an integer, or an infinity. *)
Lemma binary64_integer (neg : bool) (p : Z) :
  (0 <= p)%Z ->
  binary64 neg p 1 = Inf neg
  \/ exists z, (0 <= z)%Z /\ binary64 neg p 1 = Fin (signed neg z) 0.
Proof.
  intros Hp. unfold binary64.
  destruct (p =? 0)%Z.
  { right. exists 0%Z. split; [lia|]. destruct neg; reflexivity. }
  remember (lastPlace p 1) as e eqn:Heqe. clear Heqe.
  unfold scale. destruct (Z.ltb_spec e 0) as [Hneg|Hpos].
  - rewrite roundHalfEven_whole.
    replace (0 <=? e)%Z with false by (symmetry; apply Z.leb_gt; exact Hneg).
    cbn [andb]. right. exists p. split; [exact Hp|].
    unfold dyadic.
    replace (0 <=? e)%Z with false by (symmetry; apply Z.leb_gt; exact Hneg).
    assert (He : e = (- Z.of_nat (Z.to_nat (- e)))%Z)
      by (rewrite Z2Nat.id by lia; lia).
    remember (Z.to_nat (- e)) as k eqn:Heqk. clear Heqk. subst e.
    rewrite Z.opp_involutive, halve_pow2.
    cbn. rewrite Z.mul_1_r. reflexivity.
  - destruct ((0 <=? e)
              && (2 ^ 1024 <=? roundHalfEven p (1 * 2 ^ e) * 2 ^ e))%Z.
    + left. reflexivity.
    + right. unfold dyadic.
      replace (0 <=? e)%Z with true by (symmetry; apply Z.leb_le; exact Hpos).
      eexists. split; [|reflexivity].
      apply Z.mul_nonneg_nonneg; [|apply Z.pow_nonneg; lia].
      apply roundHalfEven_nonneg; [exact Hp|].
      apply Z.mul_pos_pos; [lia|apply Z.pow_pos_nonneg; lia].
Qed.

Lemma ofDecimal_shape (neg : bool) (m e : Z) :
  (0 <= m)%Z ->
  ofDecimal neg m e = Inf neg
  \/ exists m' e', (0 <= m')%Z /\ ofDecimal neg m e = Fin (signed neg m') e'.
Proof.
  intros Hm. unfold ofDecimal. destruct (Z.leb_spec 0 e).
  - apply binary64_shape; [|lia].
    apply Z.mul_nonneg_nonneg; [exact Hm|apply Z.pow_nonneg; lia].
  - apply binary64_shape; [exact Hm|].
    apply Z.pow_pos_nonneg; lia.
Qed.

(** ** The normalizer *)

Lemma get_not_nullish (v : value) (key : string) :
  is_nullish v = false -> get v key = Normal (field key v).
Proof.
  destruct v; simpl; intros H; try discriminate; reflexivity.
Qed.

Lemma or_else_not_nullish (a b : value) :
  is_nullish b = false -> is_nullish (or_else a b) = false.
Proof.
  intros Hb. unfold or_else. destruct (truthy a) eqn:Ha; [|exact Hb].
  destruct a; simpl in *; try discriminate; reflexivity.
Qed.

Lemma field_falsy (key : string) (v : value) :
  truthy v = false -> field key v = VUndefined.
Proof.
  destruct v; simpl; intros H; try discriminate; reflexivity.
Qed.

Lemma field_or_else_object (key : string) (v : value) :
  field key (or_else v (VObj [])) = field key v.
Proof.
  unfold or_else. destruct (truthy v) eqn:Hv; [reflexivity|].
  rewrite (field_falsy key v Hv). reflexivity.
Qed.

(** The record built for a system that is neither [null] nor [undefined]. *)
Lemma formatEdsmSystem_normal (system : value) :
  is_nullish system = false ->
  formatEdsmSystem system =
  Normal (VObj
    [ ("name", field "name" system);
      ("economy", or_else (field "economy" (information system)) (VStr ""));
      ("security", or_else (field "security" (information system)) (VStr ""));
      ("allegiance",
        or_else (suppliedAllegiance system) (VStr "Independent"));
      ("factions",
        if truthy (field "faction" (information system))
        then of_Z 1 else of_Z 0);
      ("stations", of_Z 0);
      ("distance", or_else (field "distance" system) VNull);
      ("direction", VNull);
      ("bodyCount", or_else (field "bodyCount" system) (of_Z 0)) ]).
Proof.
  intros Hs. unfold formatEdsmSystem.
  rewrite (get_not_nullish system "information") by exact Hs. cbn [bind].
  assert (Hi : is_nullish (or_else (field "information" system) (VObj [])) = false)
    by (apply or_else_not_nullish; reflexivity).
  rewrite (get_not_nullish system "name") by exact Hs. cbn [bind].
  rewrite !(get_not_nullish _ _ Hi). cbn [bind].
  rewrite !(get_not_nullish system _ Hs). cbn [bind].
  rewrite !field_or_else_object. reflexivity.
Qed.

Lemma formatEdsmSystem_nullish (system : value) :
  is_nullish system = true ->
  exists e, formatEdsmSystem system = Throw e.
Proof.
  destruct system; simpl; intros H; try discriminate; eexists; reflexivity.
Qed.

(** C1 (as amended): for every record that is not [null] or [undefined],
    the normalizer returns a record; when the information block is absent
    (missing, or any falsy value) its economy, security, allegiance,
    factions, stations and direction are exactly "", "", "Independent", 0,
    0 and null; and in general the allegiance is "Independent" when the
    supplied allegiance value is falsy (a missing key, null, the empty
    string, and also false, 0 or NaN) and is the supplied value otherwise,
    so that it equals "Independent" exactly when the supplied value is
    falsy or is itself the string "Independent". *)
Theorem formatEdsmSystem_defaults (system : value) :
  is_nullish system = false ->
  exists o, formatEdsmSystem system = Normal o
    /\ (truthy (information system) = false ->
          field "economy" o = VStr ""
          /\ field "security" o = VStr ""
          /\ field "allegiance" o = VStr "Independent"
          /\ field "factions" o = of_Z 0
          /\ field "stations" o = of_Z 0
          /\ field "direction" o = VNull)
    /\ field "allegiance" o =
         (if truthy (suppliedAllegiance system)
          then suppliedAllegiance system else VStr "Independent")
    /\ (field "allegiance" o = VStr "Independent" <->
          truthy (suppliedAllegiance system) = false
          \/ suppliedAllegiance system = VStr "Independent").
Proof.
  intros Hs. eexists. split; [apply formatEdsmSystem_normal; exact Hs|].
  split; [|split].
  - intros Hinfo. unfold suppliedAllegiance.
    rewrite !(field_falsy _ (information system) Hinfo).
    cbn. repeat split; reflexivity.
  - cbn. reflexivity.
  - cbn. unfold or_else.
    destruct (truthy (suppliedAllegiance system)) eqn:Ht; split.
    + intros H; right; exact H.
    + intros [H|H]; [discriminate|exact H].
    + intros _; left; reflexivity.
    + reflexivity.
Qed.

Lemma formatEdsmSystem_defaults_witness :
  exists o,
    formatEdsmSystem (VObj [("name", VStr "Sol")]) = Normal o
    /\ field "allegiance" o = VStr "Independent"
    /\ field "economy" o = VStr "".
Proof.
  destruct (formatEdsmSystem_defaults (VObj [("name", VStr "Sol")]))
    as [o [Ho [Habsent [Hall _]]]]; [reflexivity|].
  exists o. split; [exact Ho|]. split; [exact Hall|].
  apply Habsent. reflexivity.
Defined.

(** C1 (as stated) fails: a record that supplies the allegiance [false]
    gets "Independent" although a value was supplied, and a record that
    supplies "Independent" gets "Independent" although it supplies a
    value. *)
Lemma allegianceRule_fails :
  ~ allegianceRule
      (VObj [("information", VObj [("allegiance", VBool false)])])
  /\ ~ allegianceRule
      (VObj [("information", VObj [("allegiance", VStr "Independent")])]).
Proof.
  split; intros H.
  - destruct (H _ eq_refl) as [[Hto _] _].
    destruct (Hto eq_refl) as [E|[E|E]]; discriminate E.
  - destruct (H _ eq_refl) as [[Hto _] _].
    destruct (Hto eq_refl) as [E|[E|E]]; discriminate E.
Qed.

Lemma or_else_defined (a b : value) : defined b -> defined (or_else a b).
Proof.
  intros Hb. unfold or_else. destruct (truthy a) eqn:Ha; [|exact Hb].
  intros E. rewrite E in Ha. discriminate Ha.
Qed.

(** Every canonical field other than the name has a defined value in the
    record built for a system that is neither [null] nor [undefined]. *)
Lemma formatEdsmSystem_fields_defined (system : value) :
  is_nullish system = false ->
  exists o, formatEdsmSystem system = Normal o
    /\ field "name" o = field "name" system
    /\ forall key, In key canonicalFields \/ key = "bodyCount" ->
         key <> "name" -> defined (field key o).
Proof.
  intros Hs. eexists. split; [apply formatEdsmSystem_normal; exact Hs|].
  split; [reflexivity|].
  intros key Hkey Hname.
  assert (Hcases : key = "economy" \/ key = "security" \/ key = "allegiance"
                   \/ key = "factions" \/ key = "stations"
                   \/ key = "distance" \/ key = "direction"
                   \/ key = "bodyCount").
  { destruct Hkey as [Hin|Hb]; [|tauto].
    simpl in Hin.
    repeat (destruct Hin as [Hin|Hin]; [subst key; tauto|]).
    destruct Hin. }
  clear Hkey Hname.
  repeat (destruct Hcases as [->|Hcases]); try subst key; cbn;
    try (apply or_else_defined); try (destruct (truthy _)); discriminate.
Qed.

Lemma map_array_total {A B : Type} (f : A -> completion B) (l : list A) :
  Forall (fun x => exists y, f x = Normal y) l ->
  exists out,
    map_array f l = Normal out /\ Forall2 (fun x y => f x = Normal y) l out.
Proof.
  induction 1 as [|x l [y Hy] _ [out [Hout Hall]]].
  - exists []. split; [reflexivity|constructor].
  - exists (y :: out). split.
    + simpl. rewrite Hy. simpl. rewrite Hout. reflexivity.
    + constructor; assumption.
Qed.

(** C7 (as amended): for every input array none of whose elements is
    [null] or [undefined], the normalizer returns without throwing, and
    its result is one-to-one with the input and in the same order: the
    i-th output is the record built from the i-th input, however
    malformed that input is. *)
Theorem formatEdsmSystems_total (edsmSystems : list value) :
  Forall (fun system => is_nullish system = false) edsmSystems ->
  exists out,
    formatEdsmSystems edsmSystems = Normal out
    /\ List.length out = List.length edsmSystems
    /\ Forall2 (fun system o => formatEdsmSystem system = Normal o)
               edsmSystems out.
Proof.
  intros Hall.
  destruct (map_array_total formatEdsmSystem edsmSystems) as [out [Ho Hf]].
  - eapply Forall_impl; [|exact Hall].
    intros system Hs. eexists. apply formatEdsmSystem_normal. exact Hs.
  - exists out. split; [exact Ho|]. split; [|exact Hf].
    symmetry. eapply Forall2_length. exact Hf.
Qed.

Lemma formatEdsmSystems_total_witness :
  exists out,
    formatEdsmSystems
      [VObj []; of_Z 5; VStr "x"; VObj [("information", VNull)]] = Normal out
    /\ List.length out = 4.
Proof.
  destruct (formatEdsmSystems_total
              [VObj []; of_Z 5; VStr "x"; VObj [("information", VNull)]])
    as [out [Ho [Hlen _]]].
  - repeat constructor.
  - exists out. split; [exact Ho|exact Hlen].
Defined.

(** C7 (as stated) fails: on an array that holds [null] the normalizer
    throws when it reads [system.information]. *)
Lemma normalizerTotal_fails : ~ normalizerTotal [VNull].
Proof.
  intros [out [H _]]. discriminate H.
Qed.

(** ** The extractor *)

Lemma labelOf_cellString (cells : list element) (i : nat) :
  labelOf cells i = VStr (cellString cells i).
Proof.
  unfold labelOf, cellString, trimmedText, or_else.
  destruct (nth_error cells i) as [e|]; simpl; [|reflexivity].
  destruct (String.eqb_spec (trim (textContent e)) "") as [->|]; reflexivity.
Qed.

Lemma countOf_cellString (cells : list element) (i : nat) :
  countOf cells i = or_else (VNum (parseInt (cellString cells i))) (of_Z 0).
Proof.
  unfold countOf, cellString, trimmedText.
  destruct (nth_error cells i) as [e|]; reflexivity.
Qed.

Lemma distanceText_cellString (cells : list element) :
  distanceText cells = cellString cells 6.
Proof.
  unfold distanceText, cellString, trimmedText, or_else.
  destruct (nth_error cells 6) as [e|]; simpl; [|reflexivity].
  destruct (String.eqb_spec (trim (textContent e)) "") as [->|]; reflexivity.
Qed.

Lemma or_else_count (n : number) :
  or_else (VNum n) (of_Z 0) <> VNum NaN
  /\ (n = NaN -> or_else (VNum n) (of_Z 0) = of_Z 0).
Proof.
  unfold or_else. split.
  - destruct n as [| |m e]; simpl; try discriminate.
    destruct (m =? 0)%Z; discriminate.
  - intros ->. reflexivity.
Qed.

Lemma countOf_countFrom (cells : list element) (i : nat) :
  countFrom (cellString cells i) (countOf cells i).
Proof.
  rewrite countOf_cellString. apply or_else_count.
Qed.

Lemma directionOf_no_match (cells : list element) :
  match directionStyle cells with
  | Some style => exec rotatePattern style = None
  | None => True
  end ->
  directionOf (nth_error cells 6) = VNull.
Proof.
  unfold directionStyle, directionOf.
  destruct (nth_error cells 6) as [cell6|]; [|reflexivity].
  destruct (querySelector directionSelector cell6) as [span|]; [|reflexivity].
  destruct (getAttribute "style" (attributes span)) as [style|]; [|reflexivity].
  intros ->. destruct (truthy (VStr style)); reflexivity.
Qed.

Lemma rowObject_extracted (row : element) (cell0 : element) :
  nth_error (rowCells row) 0 = Some cell0 ->
  extractedFrom row (rowObject cell0 (rowCells row)).
Proof.
  intros H0. unfold extractedFrom, rowObject. cbn [field lookup String.eqb].
  cbn. repeat split.
  - unfold anchorString. rewrite H0. unfold trimmedText, or_else.
    destruct (querySelector anchorSelector cell0) as [a|]; simpl; [|reflexivity].
    destruct (String.eqb_spec (trim (textContent a)) "") as [->|]; reflexivity.
  - apply labelOf_cellString.
  - apply labelOf_cellString.
  - apply labelOf_cellString.
  - apply countOf_countFrom.
  - apply countOf_countFrom.
  - apply countOf_countFrom.
  - apply countOf_countFrom.
  - rewrite distanceText_cellString. unfold distanceOf. intros ->. reflexivity.
  - apply directionOf_no_match.
Qed.

Lemma processRow_spec (row : element) :
  if sevenCells row
  then exists o, processRow row = Normal (Some o) /\ extractedFrom row o
              /\ exists cell0, o = rowObject cell0 (rowCells row)
  else processRow row = Normal None.
Proof.
  unfold sevenCells, processRow.
  destruct (Nat.leb_spec 7 (List.length (rowCells row))) as [Hle|Hlt].
  - destruct (Nat.ltb_spec (List.length (rowCells row)) 7) as [Hlt|_]; [lia|].
    destruct (nth_error (rowCells row) 0) as [cell0|] eqn:H0.
    + eexists. split; [reflexivity|]. split.
      * apply rowObject_extracted. exact H0.
      * eexists. reflexivity.
    + apply nth_error_None in H0. lia.
  - destruct (Nat.ltb_spec (List.length (rowCells row)) 7) as [_|Hge]; [|lia].
    reflexivity.
Qed.

Lemma forEachRow_spec (rows : list element) (systems : list value) :
  exists pushed,
    forEachRow rows systems = Normal (systems ++ pushed)%list
    /\ Forall2 extractedFrom (filter sevenCells rows) pushed
    /\ Forall (fun o => exists cell0 cells, o = rowObject cell0 cells) pushed.
Proof.
  revert systems. induction rows as [|row rows IH]; intros systems.
  - exists []. rewrite app_nil_r. repeat split; constructor.
  - simpl. pose proof (processRow_spec row) as Hrow.
    destruct (sevenCells row).
    + destruct Hrow as [o [Ho [Hext [cell0 Hobj]]]]. rewrite Ho. simpl.
      destruct (IH (systems ++ [o])%list) as [pushed [Hp [Hall Hshape]]].
      exists (o :: pushed). rewrite Hp, <- app_assoc. simpl.
      repeat split.
      * constructor; assumption.
      * constructor; [|exact Hshape]. exists cell0, (rowCells row). exact Hobj.
    + rewrite Hrow. simpl. apply IH.
Qed.

Lemma parseDocument_spec (doc : document) :
  exists systems,
    parseDocument doc = Normal systems
    /\ Forall2 extractedFrom (filter sevenCells (tableRows doc)) systems
    /\ Forall (fun o => exists cell0 cells, o = rowObject cell0 cells) systems.
Proof.
  unfold parseDocument, tableRows.
  destruct (docQuerySelector tableSelector doc) as [table|].
  - destruct (forEachRow_spec (querySelectorAll rowSelector table) [])
      as [pushed H].
    exists pushed. exact H.
  - exists []. repeat split; constructor.
Qed.

(** The cells the extractor counts in a row are its data cells: the
    selector [td] chooses by tag name alone, at any depth. *)
Lemma rowCells_dataCells (row : element) : rowCells row = dataCells row.
Proof.
  unfold rowCells, dataCells, querySelectorAll. apply filter_ext.
  intros e. unfold matches, matches_compound, cellSelector.
  cbn [rev app sel_tag sel_classes forallb matches_ancestors].
  rewrite !andb_true_r. apply String.eqb_sym.
Qed.

(** C5 (as amended): for every page, the extractor returns normally, and
    its output is in one-to-one, order-preserving correspondence with
    the body rows that have at least 7 data cells, the data cells of a
    row being the [td] elements anywhere below it: rows with fewer leave
    nothing, every other row leaves its record at its place in document
    order. In each record the faction and station counts are never NaN
    and are 0 when the cell text has no leading integer, the distance is
    null when the distance pattern does not match, and the direction is
    null when there is no rotation to match. *)
Theorem parseInaraSystemsHtml_rows (JSDOM : value -> document) (html : value) :
  exists systems,
    parseInaraSystemsHtml JSDOM html = Normal systems
    /\ Forall2 (fun row o => recordOf (dataCells row) o)
         (filter (atLeastSeven dataCells) (tableRows (JSDOM html))) systems.
Proof.
  unfold parseInaraSystemsHtml.
  destruct (parseDocument_spec (JSDOM html)) as [systems [H [Hall _]]].
  exists systems. split; [exact H|].
  rewrite (filter_ext (atLeastSeven dataCells) sevenCells).
  - revert Hall. apply Forall2_impl. intros row o Hrow.
    unfold extractedFrom in Hrow. rewrite rowCells_dataCells in Hrow.
    exact Hrow.
  - intros row. unfold atLeastSeven, sevenCells.
    rewrite rowCells_dataCells. reflexivity.
Qed.

(** C5 (as stated) fails when the cells of a row are its own cells: a
    row with five cells, one of which holds a table of two cells, leaves
    a record, and a row with seven cells, the first of them a header
    cell, leaves none. *)
Lemma rowRule_fails : ~ rowRule nestedPage /\ ~ rowRule headerCellPage.
Proof.
  split; intros H; specialize (H _ eq_refl);
    apply Forall2_length in H; vm_compute in H; discriminate H.
Qed.

(** ** The pattern matcher *)

Ltac split_all := repeat match goal with |- _ /\ _ => split end.

Section MatcherSoundness.

Variable P : nat -> string -> Prop.

Lemma sound_skip (L : string -> Prop) (s : string) (c : captures)
      (k : cont) (x : captures) :
  L EmptyString -> good P c -> k s c = Some x ->
  exists s1 s2 c',
    s = s1 ++ s2 /\ L s1 /\ good P c'
    /\ (forall i, false = true \/ group i c <> None -> group i c' <> None)
    /\ k s2 c' = Some x.
Proof.
  intros HL Hc Hk. exists EmptyString, s, c. split_all.
  - reflexivity.
  - exact HL.
  - exact Hc.
  - intros i [Hi|Hi]; [discriminate|exact Hi].
  - exact Hk.
Qed.

Lemma class_sound (p : ascii -> bool) (L : string -> Prop) :
  (forall a, p a = true -> L (String a EmptyString)) ->
  sound_for P L (fun _ => false) (class p).
Proof.
  intros HL s c k x Hc H. unfold class in H.
  destruct s as [|a rest]; [discriminate|].
  destruct (p a) eqn:Hp; [|discriminate].
  exists (String a EmptyString), rest, c. split_all.
  - reflexivity.
  - apply HL. exact Hp.
  - exact Hc.
  - intros i [Hi|Hi]; [discriminate|exact Hi].
  - exact H.
Qed.

Lemma append_assoc (a b c : string) : (a ++ b) ++ c = a ++ (b ++ c).
Proof.
  induction a; simpl; [reflexivity|f_equal; assumption].
Qed.

Lemma length_append (a b : string) :
  String.length (a ++ b) = String.length a + String.length b.
Proof.
  induction a; simpl; [reflexivity|f_equal; assumption].
Qed.

Lemma substring_prefix (a b : string) :
  substring 0 (String.length a) (a ++ b) = a.
Proof.
  induction a; simpl.
  - destruct b; reflexivity.
  - f_equal. assumption.
Qed.

Lemma consumed_append (a b : string) : consumed (a ++ b) b = a.
Proof.
  unfold consumed. rewrite length_append.
  replace (String.length a + String.length b - String.length b)
    with (String.length a) by lia.
  apply substring_prefix.
Qed.

Lemma repeat_sound (r : regex) (step : matcher) :
  sound_for P (lang r) (fun _ => false) step ->
  forall fuel, sound_for P (lang (Star r)) (fun _ => false)
                 (repeat_matcher step fuel).
Proof.
  intros Hstep fuel. induction fuel as [|fuel IH]; intros s c k x Hc H.
  - simpl in H. apply sound_skip; [constructor|exact Hc|exact H].
  - simpl in H. unfold first_of in H.
    destruct (step s c _) as [y|] eqn:Hy.
    + injection H as ->.
      destruct (Hstep _ _ _ _ Hc Hy)
        as [s1 [s2 [c1 [-> [Hl [Hc1 [Hk1 Hrest]]]]]]].
      destruct (String.length s2 <? String.length (s1 ++ s2))%nat;
        [|discriminate].
      destruct (IH _ _ _ _ Hc1 Hrest)
        as [t1 [t2 [c2 [-> [Hl2 [Hc2 [Hk2 Hk]]]]]]].
      exists (s1 ++ t1), t2, c2. split_all.
      * symmetry. apply append_assoc.
      * constructor; assumption.
      * exact Hc2.
      * intros i [Hi|Hi]; [discriminate|].
        apply Hk2. right. apply Hk1. right. exact Hi.
      * exact Hk.
    + apply sound_skip; [constructor|exact Hc|exact H].
Qed.

Lemma sound_for_weaken (L : string -> Prop) (keeps : nat -> bool)
      (m : matcher) :
  sound_for P L keeps m -> sound_for P L (fun _ => false) m.
Proof.
  intros H s c k x Hc Hm.
  destruct (H _ _ _ _ Hc Hm) as [s1 [s2 [c' [E [Hl [Hc' [Hk Hx]]]]]]].
  exists s1, s2, c'. split_all; auto.
  intros i [Hi|Hi]; [discriminate|]. apply Hk. right. exact Hi.
Qed.

Theorem compile_sound (r : regex) :
  groups_ok P r -> sound_for P (lang r) (fun i => binds i r) (compile r).
Proof.
  induction r as [|a| | |r1 IH1 r2 IH2|r1 IH1|r1 IH1|r1 IH1|j r1 IH1];
    intros Hg.
  - intros s c k x Hc H. simpl in H.
    apply sound_skip; [constructor|exact Hc|exact H].
  - apply class_sound. intros b Hb.
    apply Ascii.eqb_eq in Hb. subst b. constructor.
  - apply class_sound. intros b Hb. constructor. exact Hb.
  - apply class_sound. intros b Hb. constructor. exact Hb.
  - destruct Hg as [Hg1 Hg2]. intros s c k x Hc H. simpl in H.
    destruct (IH1 Hg1 _ _ _ _ Hc H)
      as [s1 [s2 [c1 [-> [Hl1 [Hc1 [Hk1 H2]]]]]]].
    destruct (IH2 Hg2 _ _ _ _ Hc1 H2)
      as [t1 [t2 [c2 [-> [Hl2 [Hc2 [Hk2 Hk]]]]]]].
    exists (s1 ++ t1), t2, c2. split_all.
    + symmetry. apply append_assoc.
    + constructor; assumption.
    + exact Hc2.
    + intros i Hi. apply Hk2. simpl in Hi.
      destruct (binds i r2); [left; reflexivity|right].
      apply Hk1. rewrite orb_false_r in Hi. exact Hi.
    + exact Hk.
  - intros s c k x Hc H. simpl in H. unfold first_of in H.
    destruct (compile r1 s c k) as [y|] eqn:Hy.
    + injection H as ->.
      destruct (IH1 Hg _ _ _ _ Hc Hy)
        as [s1 [s2 [c1 [-> [Hl1 [Hc1 [Hk1 H2]]]]]]].
      exists s1, s2, c1. split_all.
      * reflexivity.
      * apply lang_Opt_some. exact Hl1.
      * exact Hc1.
      * intros i [Hi|Hi]; [discriminate|]. apply Hk1. right. exact Hi.
      * exact H2.
    + apply sound_skip; [constructor|exact Hc|exact H].
  - intros s c k x Hc H. simpl in H.
    apply (repeat_sound r1 (compile r1)
             (sound_for_weaken _ _ _ (IH1 Hg)) _ _ _ _ _ Hc H).
  - intros s c k x Hc H. simpl in H.
    destruct (IH1 Hg _ _ _ _ Hc H)
      as [s1 [s2 [c1 [-> [Hl1 [Hc1 [Hk1 H2]]]]]]].
    destruct (repeat_sound r1 (compile r1)
                (sound_for_weaken _ _ _ (IH1 Hg)) _ _ _ _ _ Hc1 H2)
      as [t1 [t2 [c2 [-> [Hl2 [Hc2 [Hk2 Hk]]]]]]].
    exists (s1 ++ t1), t2, c2. split_all.
    + symmetry. apply append_assoc.
    + constructor; assumption.
    + exact Hc2.
    + intros i Hi. apply Hk2. right. apply Hk1. exact Hi.
    + exact Hk.
  - destruct Hg as [HP Hg]. intros s c k x Hc H. simpl in H.
    destruct (IH1 Hg _ _ _ _ Hc H)
      as [s1 [s2 [c1 [-> [Hl1 [Hc1 [Hk1 H2]]]]]]].
    rewrite consumed_append in H2.
    exists s1, s2, ((j, s1) :: c1). split_all.
    + reflexivity.
    + constructor. exact Hl1.
    + constructor; [apply HP; exact Hl1|exact Hc1].
    + intros i Hi. simpl.
      destruct (Nat.eqb_spec j i) as [->|Hne]; [discriminate|].
      apply Hk1. simpl in Hi. destruct Hi as [Hi|Hi]; [|right; exact Hi].
      left. destruct (Nat.eqb_spec j i); [contradiction|exact Hi].
    + exact H2.
Qed.

(** A successful [exec] found, somewhere in the text, a string of the
    pattern; its captures satisfy [P], and the groups the pattern always
    sets are set. *)
Theorem exec_sound (r : regex) (s : string) (m : captures) :
  groups_ok P r -> exec r s = Some m ->
  (exists pre mid post, s = pre ++ mid ++ post /\ lang r mid)
  /\ good P m
  /\ (forall i, binds i r = true -> group i m <> None).
Proof.
  intros Hg. induction s as [|a s IH]; simpl; intros H.
  - destruct (compile r "" [] _) as [y|] eqn:Hy; [|discriminate].
    injection H as ->.
    destruct (compile_sound r Hg _ _ _ _ (Forall_nil _) Hy)
      as [s1 [s2 [c' [E [Hl [Hc [Hk Hx]]]]]]].
    injection Hx as ->. split_all.
    + exists EmptyString, s1, s2. split; [exact E|exact Hl].
    + exact Hc.
    + intros i Hi. apply Hk. left. exact Hi.
  - destruct (compile r (String a s) [] _) as [y|] eqn:Hy.
    + injection H as ->.
      destruct (compile_sound r Hg _ _ _ _ (Forall_nil _) Hy)
        as [s1 [s2 [c' [E [Hl [Hc [Hk Hx]]]]]]].
      injection Hx as ->. split_all.
      * exists EmptyString, s1, s2. split; [exact E|exact Hl].
      * exact Hc.
      * intros i Hi. apply Hk. left. exact Hi.
    + destruct (IH H) as [[pre [mid [post [-> Hl]]]] [Hc Hk]].
      split_all.
      * exists (String a pre), mid, post. split; [reflexivity|exact Hl].
      * exact Hc.
      * exact Hk.
Qed.

End MatcherSoundness.

(** ** Digits, signs and the two patterns *)

Lemma every_append (p : ascii -> bool) (a b : string) :
  every p (a ++ b) = every p a && every p b.
Proof.
  induction a as [|c a IH]; simpl; [reflexivity|].
  rewrite IH. apply andb_assoc.
Qed.

Lemma lang_Eps_inv (s : string) : lang Eps s -> s = EmptyString.
Proof. intros H. inversion H. reflexivity. Qed.

Lemma lang_Chr_inv (a : ascii) (s : string) :
  lang (Chr a) s -> s = String a EmptyString.
Proof. intros H. inversion H. reflexivity. Qed.

Lemma lang_Digit_inv (s : string) :
  lang Digit s -> exists a, s = String a EmptyString /\ isDigit a = true.
Proof. intros H. inversion H. eauto. Qed.

Lemma lang_Space_inv (s : string) :
  lang Space s -> exists a, s = String a EmptyString /\ isWhiteSpace a = true.
Proof. intros H. inversion H. eauto. Qed.

Lemma lang_Seq_inv (r1 r2 : regex) (s : string) :
  lang (Seq r1 r2) s ->
  exists s1 s2, s = s1 ++ s2 /\ lang r1 s1 /\ lang r2 s2.
Proof. intros H. inversion H. eauto. Qed.

Lemma lang_Opt_inv (r : regex) (s : string) :
  lang (Opt r) s -> s = EmptyString \/ lang r s.
Proof. intros H. inversion H; auto. Qed.

Lemma lang_Plus_inv (r : regex) (s : string) :
  lang (Plus r) s ->
  exists s1 s2, s = s1 ++ s2 /\ lang r s1 /\ lang (Star r) s2.
Proof. intros H. inversion H. eauto. Qed.

Lemma lang_Group_inv (i : nat) (r : regex) (s : string) :
  lang (Group i r) s -> lang r s.
Proof. intros H. inversion H. assumption. Qed.

Lemma lang_Star_every (p : ascii -> bool) (r : regex) (s : string) :
  (forall t, lang r t -> every p t = true) ->
  lang (Star r) s -> every p s = true.
Proof.
  intros Hr H. remember (Star r) as q eqn:Eq.
  induction H; try discriminate; injection Eq as ->.
  - reflexivity.
  - rewrite every_append, (Hr _ H), IHlang2 by reflexivity. reflexivity.
Qed.

Lemma lang_Plus_Digit (s : string) :
  lang (Plus Digit) s -> every isDigit s = true /\ s <> EmptyString.
Proof.
  intros H. apply lang_Plus_inv in H.
  destruct H as [s1 [s2 [-> [H1 H2]]]].
  apply lang_Digit_inv in H1. destruct H1 as [a [-> Ha]].
  split; [|discriminate].
  simpl. rewrite Ha. simpl.
  apply (lang_Star_every isDigit Digit); [|exact H2].
  intros t Ht. apply lang_Digit_inv in Ht. destruct Ht as [b [-> Hb]].
  simpl. rewrite Hb. reflexivity.
Qed.

Lemma lang_Star_Space (s : string) :
  lang (Star Space) s -> every isWhiteSpace s = true.
Proof.
  apply lang_Star_every. intros t Ht.
  apply lang_Space_inv in Ht. destruct Ht as [b [-> Hb]].
  simpl. rewrite Hb. reflexivity.
Qed.

Lemma lang_Lit (text s : string) : lang (Lit text) s -> s = text.
Proof.
  revert s. induction text as [|c text IH]; intros s H; simpl in H.
  - apply lang_Eps_inv. exact H.
  - apply lang_Seq_inv in H. destruct H as [s1 [s2 [-> [H1 H2]]]].
    apply lang_Chr_inv in H1. subst s1. simpl. f_equal. apply IH. exact H2.
Qed.

Lemma lang_distancePattern (s : string) :
  lang distancePattern s ->
  exists d1 d2 ws,
    s = (d1 ++ "." ++ d2) ++ ws ++ "Ly"
    /\ every isDigit d1 = true /\ d1 <> EmptyString
    /\ every isDigit d2 = true /\ d2 <> EmptyString
    /\ every isWhiteSpace ws = true.
Proof.
  intros H. unfold distancePattern in H.
  apply lang_Seq_inv in H. destruct H as [g [tail [-> [Hg Htail]]]].
  apply lang_Group_inv, lang_Seq_inv in Hg.
  destruct Hg as [d1 [rest [-> [Hd1 Hrest]]]].
  apply lang_Seq_inv in Hrest. destruct Hrest as [dot [d2 [-> [Hdot Hd2]]]].
  apply lang_Chr_inv in Hdot. subst dot.
  apply lang_Seq_inv in Htail. destruct Htail as [ws [ly [-> [Hws Hly]]]].
  apply lang_Lit in Hly. subst ly.
  apply lang_Plus_Digit in Hd1, Hd2. apply lang_Star_Space in Hws.
  exists d1, d2, ws. tauto.
Qed.

Lemma lang_signed_digits (s : string) :
  lang (Seq (Opt (Chr "-")) (Plus Digit)) s ->
  exists d, (s = d \/ s = String "-" d)
            /\ every isDigit d = true /\ d <> EmptyString.
Proof.
  intros H. apply lang_Seq_inv in H. destruct H as [sign [d [-> [Hs Hd]]]].
  apply lang_Plus_Digit in Hd. exists d. split; [|exact Hd].
  apply lang_Opt_inv in Hs. destruct Hs as [->|Hs]; [left; reflexivity|].
  apply lang_Chr_inv in Hs. subst sign. right. reflexivity.
Qed.

Lemma isDigit_cases (c : ascii) :
  isDigit c = true ->
  c = "0"%char \/ c = "1"%char \/ c = "2"%char \/ c = "3"%char
  \/ c = "4"%char \/ c = "5"%char \/ c = "6"%char \/ c = "7"%char
  \/ c = "8"%char \/ c = "9"%char.
Proof.
  destruct c as [[] [] [] [] [] [] [] []]; intros H;
    try discriminate H; tauto.
Qed.

Lemma digit_value_digit (c : ascii) :
  isDigit c = true ->
  exists d, digit_value c = Some d /\ (0 <= d < 10)%Z.
Proof.
  intros H. apply isDigit_cases in H.
  repeat (destruct H as [->|H];
          [eexists; split; [vm_compute; reflexivity|lia]|]).
  subst. eexists. split; [vm_compute; reflexivity|lia].
Qed.

Lemma parse_digits_some (radix : Z) (s : string) (a : Z) :
  (0 <= radix)%Z -> (0 <= a)%Z ->
  exists z, parse_digits radix s (Some a) = Some z /\ (0 <= z)%Z.
Proof.
  intros Hr. revert a. induction s as [|c s IH]; intros a Ha; simpl.
  - exists a. split; [reflexivity|exact Ha].
  - destruct (digit_value c) as [d|] eqn:Hd.
    + destruct (Z.ltb_spec d radix).
      * apply IH. unfold digit_value in Hd.
        repeat match type of Hd with
               | (if ?b then _ else _) = _ => destruct b eqn:?
               end; try discriminate; injection Hd as <-; nia.
      * exists a. split; [reflexivity|exact Ha].
    + exists a. split; [reflexivity|exact Ha].
Qed.

Lemma parse_digits_start (radix : Z) (s : string) (z : Z) :
  (0 <= radix)%Z -> parse_digits radix s None = Some z -> (0 <= z)%Z.
Proof.
  intros Hr. destruct s as [|c s]; simpl; [discriminate|].
  destruct (digit_value c) as [d|] eqn:Hd; [|discriminate].
  destruct (Z.ltb_spec d radix); [|discriminate].
  assert (Hpos : (0 <= d)%Z).
  { unfold digit_value in Hd.
    repeat match type of Hd with
           | (if ?b then _ else _) = _ => destruct b eqn:?
           end; try discriminate; injection Hd as <-; lia. }
  destruct (parse_digits_some radix s d Hr Hpos) as [z' [Hz' Hz'pos]].
  rewrite Hz'. intros E. injection E as <-. exact Hz'pos.
Qed.

Lemma strip_radix_radix (s : string) : (0 <= fst (strip_radix s))%Z.
Proof.
  destruct s as [|c [|c2 rest]]; try (simpl; lia).
  - destruct c as [[] [] [] [] [] [] [] []]; simpl; lia.
  - destruct c as [[] [] [] [] [] [] [] []]; try (simpl; lia);
      destruct c2 as [[] [] [] [] [] [] [] []]; simpl; lia.
Qed.

(** On a non-empty string of decimal digits [parseInt] reads the Number
    value of a non-negative integer, and of its opposite behind a minus
    sign. *)
Lemma parseInt_digits (d : string) :
  every isDigit d = true -> d <> EmptyString ->
  exists z, (0 <= z)%Z /\ parseInt d = binary64 false z 1
            /\ parseInt (String "-" d) = binary64 true z 1.
Proof.
  intros Hd Hne. destruct d as [|c rest]; [contradiction|].
  simpl in Hd. apply andb_prop in Hd. destruct Hd as [Hc Hrest].
  assert (Hradix : strip_radix (String c rest) = (10%Z, String c rest)).
  { destruct rest as [|c2 rest2].
    - apply isDigit_cases in Hc.
      repeat (destruct Hc as [->|Hc]; [reflexivity|]). subst. reflexivity.
    - simpl in Hrest. apply andb_prop in Hrest. destruct Hrest as [Hc2 _].
      apply isDigit_cases in Hc, Hc2.
      repeat (destruct Hc as [->|Hc]; [|]); subst;
        repeat (destruct Hc2 as [->|Hc2]; [reflexivity|]); subst; reflexivity. }
  assert (Hparse : exists z, parse_digits 10 (String c rest) None = Some z
                             /\ (0 <= z)%Z).
  { destruct (digit_value_digit c Hc) as [v [Hv Hrange]].
    simpl. rewrite Hv.
    destruct (Z.ltb_spec v 10); [|lia].
    apply parse_digits_some; lia. }
  destruct Hparse as [z [Hz Hpos]]. exists z. split; [exact Hpos|]. split.
  - unfold parseInt.
    assert (E : strip_sign (trimStart (String c rest)) = (false, String c rest)).
    { apply isDigit_cases in Hc.
      repeat (destruct Hc as [->|Hc]; [reflexivity|]). subst. reflexivity. }
    rewrite E. cbv beta iota. rewrite Hradix, Hz. reflexivity.
  - unfold parseInt.
    change (strip_sign (trimStart (String "-" (String c rest))))
      with (true, String c rest).
    cbv beta iota. rewrite Hradix, Hz. reflexivity.
Qed.

(** [parseInt] gives [NaN], an integer or an infinity. *)
Lemma parseInt_shape (s : string) :
  parseInt s = NaN
  \/ (exists z, parseInt s = Fin z 0)
  \/ exists negative, parseInt s = Inf negative.
Proof.
  unfold parseInt.
  destruct (strip_sign (trimStart s)) as [neg s1].
  pose proof (strip_radix_radix s1) as Hradix.
  destruct (strip_radix s1) as [radix s2]. simpl in Hradix.
  destruct (parse_digits radix s2 None) as [z|] eqn:Hz.
  - right.
    destruct (binary64_integer neg z (parse_digits_start _ _ _ Hradix Hz))
      as [-> | [z' [_ ->]]].
    + right. eexists. reflexivity.
    + left. eexists. reflexivity.
  - left. reflexivity.
Qed.

(** Rounding at work: past [2^53] an integer is read as the nearest
    binary64 value, a run of 309 nines is read as an infinity, and a
    fraction of zero leaves an integer. *)
Lemma parse_rounds :
  parseInt "9007199254740993" = Fin 9007199254740992 0
  /\ parseInt (nines 309) = Inf false
  /\ parseInt (String "-" (nines 309)) = Inf true
  /\ parseFloat "12.0" = Fin 12 0
  /\ parseFloat (nines 309 ++ ".5") = Inf false.
Proof.
  repeat split; vm_compute; reflexivity.
Qed.

Lemma group_In (i : nat) (c : captures) (g : string) :
  group i c = Some g -> In (i, g) c.
Proof.
  induction c as [|[j t] c IH]; simpl; [discriminate|].
  destruct (Nat.eqb_spec j i) as [->|_].
  - intros E. injection E as ->. left. reflexivity.
  - intros E. right. apply IH. exact E.
Qed.

Lemma countOf_integer (cells : list element) (i : nat) :
  integerOrInfinite (countOf cells i).
Proof.
  unfold countOf, or_else.
  destruct (parseInt_shape (argString (trimmedText (nth_error cells i))))
    as [->|[[z ->]|[negative ->]]].
  - left. exists 0%Z. reflexivity.
  - left. simpl. destruct (z =? 0)%Z; [exists 0%Z|exists z]; reflexivity.
  - right. exists negative. reflexivity.
Qed.

Lemma directionOf_integer (cell : option element) :
  directionOf cell = VNull \/ integerOrInfinite (directionOf cell).
Proof.
  unfold directionOf.
  destruct cell as [cell6|]; [|left; reflexivity].
  destruct (querySelector directionSelector cell6) as [span|];
    [|left; reflexivity].
  destruct (getAttribute "style" (attributes span)) as [style|];
    [|left; reflexivity].
  destruct (truthy (VStr style)); [|left; reflexivity].
  destruct (exec rotatePattern style) as [m|] eqn:Hm; [|left; reflexivity].
  right.
  destruct (exec_sound
              (fun _ g => lang (Seq (Opt (Chr "-")) (Plus Digit)) g)
              rotatePattern style m) as [_ [Hgood Hset]].
  - simpl. tauto.
  - exact Hm.
  - specialize (Hset 1 eq_refl).
    destruct (group 1 m) as [g|] eqn:Hg; [|contradiction].
    apply group_In in Hg. unfold good in Hgood.
    rewrite Forall_forall in Hgood. specialize (Hgood _ Hg). simpl in Hgood.
    apply lang_signed_digits in Hgood.
    destruct Hgood as [d [Hd [Hdigits Hne]]].
    cbn [argString]. destruct Hd as [->| ->].
    + destruct (parseInt_shape d) as [E|[[z ->]|[negative ->]]].
      * destruct (parseInt_digits d Hdigits Hne) as [z [Hz [Hplus _]]].
        rewrite Hplus in E.
        destruct (binary64_shape false z 1 Hz ltac:(lia))
          as [E'|[m' [e' [_ E']]]]; rewrite E' in E; discriminate E.
      * left. exists z. reflexivity.
      * right. exists negative. reflexivity.
    + destruct (parseInt_shape (String "-" d)) as [E|[[z ->]|[negative ->]]].
      * destruct (parseInt_digits d Hdigits Hne) as [z [Hz [_ Hminus]]].
        rewrite Hminus in E.
        destruct (binary64_shape true z 1 Hz ltac:(lia))
          as [E'|[m' [e' [_ E']]]]; rewrite E' in E; discriminate E.
      * left. exists z. reflexivity.
      * right. exists negative. reflexivity.
Qed.

(** C8 (as amended): in every record the extractor produces the faction
    count and the station count are each an integer or an infinity, and
    the direction is null, an integer or an infinity; a count can be
    negative, the direction is not limited to a range, and the infinity
    is what [parseInt] gives for a run of digits beyond the range of
    binary64. *)
Theorem scraped_rows_hold_integers
        (doc : document) (systems : list value) (o : value) :
  parseDocument doc = Normal systems -> In o systems ->
  integerOrInfinite (field "factions" o)
  /\ integerOrInfinite (field "stations" o)
  /\ (field "direction" o = VNull
      \/ integerOrInfinite (field "direction" o)).
Proof.
  intros Hparse Hin.
  destruct (parseDocument_spec doc) as [systems' [E [_ Hshape]]].
  rewrite E in Hparse. injection Hparse as ->.
  rewrite Forall_forall in Hshape.
  destruct (Hshape _ Hin) as [cell0 [cells ->]].
  unfold rowObject. cbn [field lookup]. cbn.
  split; [apply countOf_integer|].
  split; [apply countOf_integer|].
  apply directionOf_integer.
Qed.

Lemma scraped_rows_hold_integers_witness :
  exists o,
    parseDocument samplePage = Normal [o]
    /\ integerOrInfinite (field "factions" o)
    /\ integerOrInfinite (field "stations" o)
    /\ (field "direction" o = VNull
        \/ integerOrInfinite (field "direction" o)).
Proof.
  eexists. split; [reflexivity|].
  apply (scraped_rows_hold_integers samplePage _ _ eq_refl).
  left. reflexivity.
Defined.

(** C8 (as stated) fails: a row whose factions cell reads -5 and whose
    direction marker is turned by 270 degrees yields a negative faction
    count and a direction outside -180..180. *)
Lemma scrapedRowInvariant_fails : ~ scrapedRowInvariant samplePage.
Proof.
  intros H.
  destruct (H _ _ eq_refl (or_introl eq_refl)) as [[z [E Hz]] _].
  vm_compute in E. injection E as <-. lia.
Qed.

Lemma distanceOf_sound (text : string) :
  distanceOf text <> VNull -> hasDecimalDistance text.
Proof.
  unfold distanceOf. intros H.
  destruct (exec distancePattern text) as [m|] eqn:Hm; [|contradiction].
  destruct (exec_sound (fun _ _ => True) distancePattern text m)
    as [[pre [mid [post [-> Hmid]]]] _].
  - simpl. tauto.
  - exact Hm.
  - apply lang_distancePattern in Hmid.
    destruct Hmid as [d1 [d2 [ws [-> Hrest]]]].
    exists pre, d1, d2, ws, post. split; [|exact Hrest].
    f_equal. rewrite !append_assoc. reflexivity.
Qed.

Lemma distanceOf_no_point (text : string) :
  noDecimalPoint text -> distanceOf text = VNull.
Proof.
  intros Hno.
  destruct (distanceOf text) eqn:E; try reflexivity; exfalso;
    (destruct (distanceOf_sound text) as [pre [d1 [d2 [ws [post [-> _]]]]]];
     [rewrite E; discriminate|]);
    unfold noDecimalPoint in Hno;
    rewrite !every_append in Hno; simpl in Hno;
    rewrite !andb_false_r in Hno; simpl in Hno;
    rewrite ?andb_false_r in Hno; discriminate Hno.
Qed.

(** C10: the distance of an extracted record is null unless the trimmed
    text of the distance cell holds digits, a decimal point, digits,
    optional white space and "Ly"; and whenever that text has no decimal
    point, as in the whole-number distance "12 Ly", the distance is
    null. *)
Theorem distance_requires_decimal_point
        (cell0 : element) (cells : list element) :
  (field "distance" (rowObject cell0 cells) = VNull
   \/ hasDecimalDistance (cellString cells 6))
  /\ (noDecimalPoint (cellString cells 6) ->
      field "distance" (rowObject cell0 cells) = VNull).
Proof.
  unfold rowObject. cbn [field lookup]. cbn.
  rewrite distanceText_cellString. split.
  - destruct (distanceOf (cellString cells 6)) eqn:E;
      try (right; apply distanceOf_sound; rewrite E; discriminate).
    left. reflexivity.
  - apply distanceOf_no_point.
Qed.

Lemma distance_requires_decimal_point_witness :
  cellString wholeNumberCells 6 = "12 Ly"
  /\ field "distance"
       (rowObject (mkElement "td" [] [TextNode "Sol"] []) wholeNumberCells)
     = VNull.
Proof.
  split; [reflexivity|].
  apply (proj2 (distance_requires_decimal_point
                  (mkElement "td" [] [TextNode "Sol"] []) wholeNumberCells)).
  reflexivity.
Defined.

(** ** The retry loops *)

Section Runs.

Variable JSDOM : value -> document.
Variable env : nat -> outcome.

Ltac first_attempts :=
  let k := fresh "k" in
  let Hk := fresh "Hk" in
  intros k Hk;
  repeat (destruct k as [|k]; [eexists; eassumption|]);
  simpl in Hk; lia.

Ltac finish_run n :=
  do 2 eexists; exists n; split; [reflexivity|];
  unfold run_of; split; [unfold maxAttempts; lia|];
  split; [reflexivity|]; split; [reflexivity|];
  split; [first_attempts|];
  first [ left; eassumption
        | right; split; [reflexivity|];
          eexists; split; [eassumption|reflexivity] ].

Lemma nearestSystems_run (fuel : nat) (query : list (string * value)) :
  truthy (lookup "referenceSystem" query) = true ->
  (maxAttempts <= fuel)%nat ->
  exists r w n,
    nearestSystems JSDOM env fuel query = Some (Sent r, w)
    /\ run_of JSDOM env InaraNearestSystems r w n.
Proof.
  intros Hq Hfuel. unfold nearestSystems. rewrite Hq. cbn [negb].
  destruct fuel as [|[|[|fuel]]]; try (unfold maxAttempts in Hfuel; lia).
  cbn [inaraLoop Nat.ltb Nat.leb maxAttempts delay axios_get calls trace app].
  change (bind (settle (env 0)) _) with (attempt JSDOM InaraNearestSystems (env 0)).
  destruct (attempt JSDOM InaraNearestSystems (env 0)) as [r0|e0] eqn:E0.
  { finish_run 1. }
  cbn [inaraLoop Nat.ltb Nat.leb maxAttempts delay axios_get calls trace app Nat.mul Nat.add].
  change (bind (settle (env 1)) _) with (attempt JSDOM InaraNearestSystems (env 1)).
  destruct (attempt JSDOM InaraNearestSystems (env 1)) as [r1|e1] eqn:E1.
  { finish_run 2. }
  cbn [inaraLoop Nat.ltb Nat.leb maxAttempts delay axios_get calls trace app Nat.mul Nat.add].
  change (bind (settle (env 2)) _) with (attempt JSDOM InaraNearestSystems (env 2)).
  destruct (attempt JSDOM InaraNearestSystems (env 2)) as [r2|e2] eqn:E2.
  { finish_run 3. }
  destruct fuel; finish_run 3.
Qed.

Lemma sphereSystems_run (fuel : nat) (query : list (string * value)) :
  truthy (lookup "systemName" query) = true ->
  (maxAttempts <= fuel)%nat ->
  exists r w n,
    sphereSystems env fuel query = Some (Sent r, w)
    /\ run_of JSDOM env EdsmSphereSystems r w n.
Proof.
  intros Hq Hfuel. unfold sphereSystems. rewrite Hq. cbn [negb].
  destruct fuel as [|[|[|fuel]]]; try (unfold maxAttempts in Hfuel; lia).
  cbn [sphereLoop Nat.ltb Nat.leb maxAttempts delay axios_get calls trace app].
  change (bind (settle (env 0)) _) with (attempt JSDOM EdsmSphereSystems (env 0)).
  destruct (attempt JSDOM EdsmSphereSystems (env 0)) as [r0|e0] eqn:E0.
  { finish_run 1. }
  cbn [sphereLoop Nat.ltb Nat.leb maxAttempts delay axios_get calls trace app Nat.mul Nat.add].
  change (bind (settle (env 1)) _) with (attempt JSDOM EdsmSphereSystems (env 1)).
  destruct (attempt JSDOM EdsmSphereSystems (env 1)) as [r1|e1] eqn:E1.
  { finish_run 2. }
  cbn [sphereLoop Nat.ltb Nat.leb maxAttempts delay axios_get calls trace app Nat.mul Nat.add].
  change (bind (settle (env 2)) _) with (attempt JSDOM EdsmSphereSystems (env 2)).
  destruct (attempt JSDOM EdsmSphereSystems (env 2)) as [r2|e2] eqn:E2.
  { finish_run 3. }
  finish_run 3.
Qed.

(** The attempt behind each shape of outcome on the bodies endpoint. *)
Ltac bodies_outcome k E :=
  let d := fresh "data" in
  let e := fresh "error" in
  let O := fresh "O" in
  let I := fresh "I" in
  destruct (env k) as [d|e] eqn:O;
  [ destruct (isEmptyResponse d) eqn:I;
    [ assert (E : attempt JSDOM EdsmBodies (env k)
                  = Throw (mkError "Empty response received from EDSM"))
        by (rewrite O; cbn [attempt settle bind]; rewrite I; reflexivity)
    | assert (E : attempt JSDOM EdsmBodies (env k) = Normal (json d))
        by (rewrite O; cbn [attempt settle bind]; rewrite I; reflexivity) ]
  | assert (E : attempt JSDOM EdsmBodies (env k) = Throw e)
      by (rewrite O; reflexivity) ].

Lemma bodies_run (fuel : nat) (query : list (string * value)) :
  truthy (lookup "systemName" query) = true ->
  (maxAttempts <= fuel)%nat ->
  exists r w n,
    bodies env fuel query = Some (Sent r, w) /\ run_of JSDOM env EdsmBodies r w n.
Proof.
  intros Hq Hfuel. unfold bodies. rewrite Hq. cbn [negb].
  destruct fuel as [|[|[|fuel]]]; try (unfold maxAttempts in Hfuel; lia).
  cbn [bodiesLoop Nat.ltb Nat.leb maxAttempts delay axios_get calls trace app].
  bodies_outcome 0 E0; [| finish_run 1 |];
    cbn [bodiesLoop Nat.ltb Nat.leb maxAttempts delay axios_get calls trace
         app Nat.mul Nat.add];
    (bodies_outcome 1 E1; [| finish_run 2 |]);
    cbn [bodiesLoop Nat.ltb Nat.leb maxAttempts delay axios_get calls trace
         app Nat.mul Nat.add];
    (bodies_outcome 2 E2; [| finish_run 3 |]);
    destruct fuel; finish_run 3.
Qed.

Ltac system_outcome k E :=
  let d := fresh "data" in
  let e := fresh "error" in
  let O := fresh "O" in
  destruct (env k) as [d|e] eqn:O;
  [ assert (E : attempt JSDOM EdsmSystem (env k) = Normal (json d))
      by (rewrite O; reflexivity)
  | assert (E : attempt JSDOM EdsmSystem (env k) = Throw e)
      by (rewrite O; reflexivity) ].

Lemma system_run (fuel : nat) (query : list (string * value)) :
  truthy (lookup "systemName" query) = true ->
  (maxAttempts <= fuel)%nat ->
  exists r w n,
    system env fuel query = Some (Sent r, w) /\ run_of JSDOM env EdsmSystem r w n.
Proof.
  intros Hq Hfuel. unfold system. rewrite Hq. cbn [negb].
  destruct fuel as [|[|[|fuel]]]; try (unfold maxAttempts in Hfuel; lia).
  cbn [systemLoop Nat.ltb Nat.leb maxAttempts delay axios_get calls trace app].
  system_outcome 0 E0; [finish_run 1|].
  cbn [systemLoop Nat.ltb Nat.leb maxAttempts delay axios_get calls trace
       app Nat.mul Nat.add].
  system_outcome 1 E1; [finish_run 2|].
  cbn [systemLoop Nat.ltb Nat.leb maxAttempts delay axios_get calls trace
       app Nat.mul Nat.add].
  system_outcome 2 E2; finish_run 3.
Qed.

(** One iteration of each loop. *)
Lemma calls_delay (attempts : nat) (w : world) :
  calls (delay attempts w) = calls w.
Proof.
  unfold delay. destruct (0 <? attempts)%nat; reflexivity.
Qed.

Lemma inaraLoop_unfold (fuel attempts : nat) (lastError : option error)
      (w : world) :
  inaraLoop JSDOM env fuel attempts lastError w =
  if (attempts <? maxAttempts)%nat then
    match fuel with
    | O => None
    | S fuel' =>
        let w2 := mkWorld (S (calls w))
                    (trace (delay attempts w) ++ [Get InaraNearestSystems]) in
        match attempt JSDOM InaraNearestSystems (env (calls w)) with
        | Normal r => Some (Sent r, w2)
        | Throw error =>
            inaraLoop JSDOM env fuel' (S attempts) (Some error) w2
        end
    end
  else Some (Sent (status_json 500
               (VObj [ ("error", VStr "Failed to fetch data from Inara.cz");
                       ("details", lastMessage lastError) ])), w).
Proof.
  destruct fuel; cbn [inaraLoop axios_get]; rewrite ?calls_delay; reflexivity.
Qed.

Lemma sphereLoop_unfold (fuel attempts : nat) (lastError : option error)
      (w : world) :
  sphereLoop env fuel attempts lastError w =
  if (attempts <? maxAttempts)%nat then
    match fuel with
    | O => None
    | S fuel' =>
        let w2 := mkWorld (S (calls w))
                    (trace (delay attempts w) ++ [Get EdsmSphereSystems]) in
        match attempt JSDOM EdsmSphereSystems (env (calls w)) with
        | Normal r => Some (Sent r, w2)
        | Throw error =>
            if (maxAttempts <=? S attempts)%nat
            then Some (Sent (sphereFailure error), w2)
            else sphereLoop env fuel' (S attempts) (Some error) w2
        end
    end
  else Some (Sent (sphereFailure (mkError "All request attempts failed")), w).
Proof.
  destruct fuel; cbn [sphereLoop axios_get]; rewrite ?calls_delay; reflexivity.
Qed.

Lemma bodiesLoop_unfold (fuel attempts : nat) (lastError : option error)
      (w : world) :
  bodiesLoop env fuel attempts lastError w =
  if (attempts <? maxAttempts)%nat then
    match fuel with
    | O => None
    | S fuel' =>
        let w2 := mkWorld (S (calls w))
                    (trace (delay attempts w) ++ [Get EdsmBodies]) in
        match env (calls w) with
        | Resolved data =>
            if isEmptyResponse data then
              if (maxAttempts <=? S attempts)%nat then
                bodiesLoop env fuel' (S (S attempts))
                  (Some (mkError "Empty response received from EDSM")) w2
              else bodiesLoop env fuel' (S attempts) lastError w2
            else Some (Sent (json data), w2)
        | Rejected error => bodiesLoop env fuel' (S attempts) (Some error) w2
        end
    end
  else Some (Sent (status_json 500
               (VObj [ ("error", VStr "Failed to fetch data from EDSM");
                       ("details", lastMessage lastError) ])), w).
Proof.
  destruct fuel; cbn [bodiesLoop axios_get]; rewrite ?calls_delay; reflexivity.
Qed.

Lemma systemLoop_unfold (fuel attempts : nat) (w : world) :
  systemLoop env fuel attempts w =
  if (attempts <? maxAttempts)%nat then
    match fuel with
    | O => None
    | S fuel' =>
        let w2 := mkWorld (S (calls w))
                    (trace (delay attempts w) ++ [Get EdsmSystem]) in
        match env (calls w) with
        | Resolved data => Some (Sent (json data), w2)
        | Rejected error =>
            if (maxAttempts <=? S attempts)%nat then
              Some (Sent (status_json 500
                      (VObj [ ("error",
                               VStr "Failed to fetch system data from EDSM");
                              ("details", VStr (message error)) ])), w2)
            else systemLoop env fuel' (S attempts) w2
        end
    end
  else Some (Silent, w).
Proof.
  destruct fuel; cbn [systemLoop axios_get]; rewrite ?calls_delay; reflexivity.
Qed.

(** More fuel never changes an answer. *)
Lemma inaraLoop_fuel (fuel attempts : nat) (lastError : option error)
      (w : world) (x : reply * world) :
  inaraLoop JSDOM env fuel attempts lastError w = Some x ->
  inaraLoop JSDOM env (S fuel) attempts lastError w = Some x.
Proof.
  revert attempts lastError w.
  induction fuel as [|fuel IH]; intros attempts lastError w H;
    rewrite inaraLoop_unfold in H; rewrite inaraLoop_unfold;
    destruct (attempts <? maxAttempts)%nat; try exact H.
  - discriminate H.
  - cbv beta iota zeta in H |- *.
    destruct (attempt JSDOM InaraNearestSystems (env (calls w)));
      [exact H|apply IH; exact H].
Qed.

Lemma sphereLoop_fuel (fuel attempts : nat) (lastError : option error)
      (w : world) (x : reply * world) :
  sphereLoop env fuel attempts lastError w = Some x ->
  sphereLoop env (S fuel) attempts lastError w = Some x.
Proof.
  revert attempts lastError w.
  induction fuel as [|fuel IH]; intros attempts lastError w H;
    rewrite sphereLoop_unfold in H; rewrite sphereLoop_unfold;
    destruct (attempts <? maxAttempts)%nat; try exact H.
  - discriminate H.
  - cbv beta iota zeta in H |- *.
    destruct (attempt JSDOM EdsmSphereSystems (env (calls w))); [exact H|].
    destruct (maxAttempts <=? S attempts)%nat; [exact H|apply IH; exact H].
Qed.

Lemma bodiesLoop_fuel (fuel attempts : nat) (lastError : option error)
      (w : world) (x : reply * world) :
  bodiesLoop env fuel attempts lastError w = Some x ->
  bodiesLoop env (S fuel) attempts lastError w = Some x.
Proof.
  revert attempts lastError w.
  induction fuel as [|fuel IH]; intros attempts lastError w H;
    rewrite bodiesLoop_unfold in H; rewrite bodiesLoop_unfold;
    destruct (attempts <? maxAttempts)%nat; try exact H.
  - discriminate H.
  - cbv beta iota zeta in H |- *.
    destruct (env (calls w)) as [data|error]; [|apply IH; exact H].
    destruct (isEmptyResponse data); [|exact H].
    destruct (maxAttempts <=? S attempts)%nat; apply IH; exact H.
Qed.

Lemma systemLoop_fuel (fuel attempts : nat) (w : world) (x : reply * world) :
  systemLoop env fuel attempts w = Some x ->
  systemLoop env (S fuel) attempts w = Some x.
Proof.
  revert attempts w.
  induction fuel as [|fuel IH]; intros attempts w H;
    rewrite systemLoop_unfold in H; rewrite systemLoop_unfold;
    destruct (attempts <? maxAttempts)%nat; try exact H.
  - discriminate H.
  - cbv beta iota zeta in H |- *.
    destruct (env (calls w)) as [data|error]; [exact H|].
    destruct (maxAttempts <=? S attempts)%nat; [exact H|apply IH; exact H].
Qed.

Lemma handle_fuel (u : upstream) (fuel : nat) (query : list (string * value))
      (x : reply * world) :
  handle JSDOM env u fuel query = Some x ->
  handle JSDOM env u (S fuel) query = Some x.
Proof.
  destruct u; cbn [handle];
    unfold nearestSystems, sphereSystems, bodies, system;
    match goal with
    | |- context [negb (truthy ?v)] => destruct (negb (truthy v))
    end; try (intros H; exact H).
  - apply inaraLoop_fuel.
  - apply sphereLoop_fuel.
  - apply bodiesLoop_fuel.
  - apply systemLoop_fuel.
Qed.

(** Every request that names its system is answered, after one to three
    attempts that form a run. *)
Lemma handle_run (u : upstream) (fuel : nat) (query : list (string * value)) :
  truthy (lookup (requiredParam u) query) = true ->
  (maxAttempts <= fuel)%nat ->
  exists r w n,
    handle JSDOM env u fuel query = Some (Sent r, w) /\ run_of JSDOM env u r w n.
Proof.
  destruct u; simpl.
  - apply nearestSystems_run.
  - apply sphereSystems_run.
  - apply bodies_run.
  - apply system_run.
Qed.

(** With a fuel of [maxAttempts] or more the answer is the one found with
    [maxAttempts]: the bound on the iterations is the loop's own. *)
Lemma handle_any_fuel (u : upstream) (fuel : nat)
      (query : list (string * value)) :
  (maxAttempts <= fuel)%nat ->
  handle JSDOM env u fuel query = handle JSDOM env u maxAttempts query
  /\ handle JSDOM env u fuel query <> None.
Proof.
  intros Hfuel.
  assert (Hsome : exists x, handle JSDOM env u maxAttempts query = Some x).
  { destruct (truthy (lookup (requiredParam u) query)) eqn:Hq.
    - destruct (handle_run u maxAttempts query Hq (le_n _))
        as [r [w [n [Hh _]]]].
      eexists. exact Hh.
    - destruct u; cbn [handle requiredParam] in *;
        unfold nearestSystems, sphereSystems, bodies, system;
        rewrite Hq; eexists; reflexivity. }
  destruct Hsome as [x Hx].
  assert (Hup : forall extra,
             handle JSDOM env u (extra + maxAttempts) query = Some x).
  { induction extra as [|extra IH]; [exact Hx|].
    apply handle_fuel. exact IH. }
  replace fuel with ((fuel - maxAttempts) + maxAttempts) by lia.
  rewrite Hup, Hx. split; [reflexivity|discriminate].
Qed.

End Runs.

(** ** The endpoints *)

(** C9: on each of the four endpoints, a request whose system-name
    parameter is missing or empty is answered with status 400 and an
    error body, and no upstream call is made. *)
Theorem missing_parameter_is_rejected
        (JSDOM : value -> document) (env : nat -> outcome)
        (u : upstream) (fuel : nat) (query : list (string * value)) :
  lookup (requiredParam u) query = VUndefined
  \/ lookup (requiredParam u) query = VStr "" ->
  exists text w,
    handle JSDOM env u fuel query
    = Some (Sent (mkResponse 400 (VObj [("error", VStr text)])), w)
    /\ text <> EmptyString
    /\ calls w = 0
    /\ trace w = [].
Proof.
  intros H.
  assert (Hq : truthy (lookup (requiredParam u) query) = false)
    by (destruct H as [-> | ->]; reflexivity).
  destruct u; simpl in Hq |- *;
    unfold nearestSystems, sphereSystems, bodies, system;
    rewrite Hq; cbn [negb];
    do 2 eexists; (split; [reflexivity|]);
    (split; [discriminate|]); split; reflexivity.
Qed.

Lemma missing_parameter_is_rejected_witness :
  exists text w,
    handle (fun _ => []) (fun _ => Resolved (VStr "<html></html>"))
           InaraNearestSystems 3 [("anyPopulation", VStr "true")]
    = Some (Sent (mkResponse 400 (VObj [("error", VStr text)])), w)
    /\ text <> EmptyString
    /\ calls w = 0
    /\ trace w = [].
Proof.
  apply missing_parameter_is_rejected. left. reflexivity.
Defined.










(** ** The canonical fields on both paths *)

Lemma distanceOf_defined (text : string) : defined (distanceOf text).
Proof.
  unfold distanceOf. destruct (exec distancePattern text); discriminate.
Qed.

Lemma directionOf_defined (cell : option element) : defined (directionOf cell).
Proof.
  unfold directionOf.
  repeat match goal with
         | |- defined (match ?x with _ => _ end) => destruct x
         | |- defined (if ?x then _ else _) => destruct x
         end; discriminate.
Qed.

Lemma rowObject_fields_defined (cell0 : element) (cells : list element) :
  (forall key, In key canonicalFields ->
               defined (field key (rowObject cell0 cells)))
  /\ field "bodyCount" (rowObject cell0 cells) = VUndefined.
Proof.
  split; [|reflexivity].
  intros key Hin. simpl in Hin.
  repeat (destruct Hin as [<-|Hin]); try contradiction; cbn;
    try (apply or_else_defined; discriminate).
  - apply distanceOf_defined.
  - apply directionOf_defined.
Qed.

(** C6 (as amended): every record returned by the scraped-source path has
    all eight canonical fields with defined values and no bodyCount; every
    record returned by the JSON-source path has economy, security,
    allegiance, factions, stations, distance, direction and bodyCount with
    defined values whatever keys the source record supplies, and carries
    as its name the name the source record supplies. *)
Theorem normalized_fields_defined
        (doc : document) (systems : list value) (scraped : value)
        (system : value) (formatted : value) :
  (parseDocument doc = Normal systems -> In scraped systems ->
   (forall key, In key canonicalFields -> defined (field key scraped))
   /\ field "bodyCount" scraped = VUndefined)
  /\ (formatEdsmSystem system = Normal formatted ->
      (forall key, In key canonicalFields \/ key = "bodyCount" ->
                   key <> "name" -> defined (field key formatted))
      /\ field "name" formatted = field "name" system).
Proof.
  split.
  - intros Hparse Hin.
    destruct (parseDocument_spec doc) as [systems' [E [_ Hshape]]].
    rewrite E in Hparse. injection Hparse as ->.
    rewrite Forall_forall in Hshape.
    destruct (Hshape _ Hin) as [cell0 [cells ->]].
    apply rowObject_fields_defined.
  - intros Hformat.
    destruct (is_nullish system) eqn:Hs.
    + destruct (formatEdsmSystem_nullish system Hs) as [e He].
      rewrite He in Hformat. discriminate Hformat.
    + destruct (formatEdsmSystem_fields_defined system Hs)
        as [o [Ho [Hname Hfields]]].
      rewrite Ho in Hformat. injection Hformat as <-.
      split; [exact Hfields|exact Hname].
Qed.

Lemma normalized_fields_defined_witness :
  parseDocument samplePage = Normal [sampleRecord]
  /\ formatEdsmSystem solRecord = Normal solNormalized
  /\ defined (field "direction" sampleRecord)
  /\ defined (field "bodyCount" solNormalized)
  /\ field "name" solNormalized = VStr "Sol".
Proof.
  split; [reflexivity|]. split; [reflexivity|].
  destruct (normalized_fields_defined
              samplePage [sampleRecord] sampleRecord solRecord solNormalized)
    as [Hscraped Hjson].
  destruct (Hscraped eq_refl (or_introl eq_refl)) as [Hs _].
  destruct (Hjson eq_refl) as [Hf Hname].
  split; [apply Hs; simpl; tauto|].
  split; [apply Hf; [right; reflexivity|discriminate]|].
  exact Hname.
Defined.

(** C6 (as stated) fails: from a source record without a [name] key the
    normalizer builds a record whose name is [undefined], which the JSON
    sent to the client leaves out. *)
Lemma jsonRecordComplete_fails :
  ~ jsonRecordComplete (VObj [("distance", VNum (Fin 125 (-1)))]).
Proof.
  intros H.
  apply (H _ eq_refl "name"); [left; simpl; tauto|reflexivity].
Qed.

(** * Further properties of the handlers *)











(** X4: the bodies and system-coordinates endpoints pass the upstream
    JSON through unmodified: whenever one of them answers 200, the body
    sent is the payload of the last upstream call made, and on the bodies
    endpoint that payload is not empty. *)
Theorem json_passes_through
        (JSDOM : value -> document) (env : nat -> outcome)
        (u : upstream) (fuel : nat) (query : list (string * value))
        (r : response) (w : world) :
  u = EdsmBodies \/ u = EdsmSystem ->
  (maxAttempts <= fuel)%nat ->
  handle JSDOM env u fuel query = Some (Sent r, w) ->
  status r = 200 ->
  (1 <= calls w)%nat
  /\ env (calls w - 1) = Resolved (body r)
  /\ (u = EdsmBodies -> isEmptyResponse (body r) = false).
Proof.
  intros Hu Hfuel Hh Hstatus.
  destruct (truthy (lookup (requiredParam u) query)) eqn:Hq.
  - destruct (handle_run JSDOM env u fuel query Hq Hfuel)
      as [r' [w' [n [Hh' [Hn [Hcalls [_ [_ Hend]]]]]]]].
    rewrite Hh in Hh'. injection Hh' as <- <-.
    rewrite Hcalls. split; [lia|].
    destruct Hend as [Hok|[_ [e [_ ->]]]]; [|discriminate Hstatus].
    destruct Hu as [-> | ->]; cbn [attempt] in Hok;
      destruct (env (n - 1)) as [data|e]; cbn [settle bind] in Hok;
      try discriminate Hok.
    + destruct (isEmptyResponse data) eqn:He; [discriminate Hok|].
      injection Hok as <-. split; [reflexivity|]. intros _. exact He.
    + injection Hok as <-. split; [reflexivity|]. intros H. discriminate H.
  - exfalso.
    destruct Hu as [-> | ->]; cbn [handle requiredParam] in *;
      unfold bodies, system in Hh; rewrite Hq in Hh;
      injection Hh as <- _; discriminate Hstatus.
Qed.

Lemma json_passes_through_witness :
  handle (fun _ => []) (fun _ => Resolved (VArr []))
         EdsmSystem 3 [("systemName", VStr "Sol")]
  = Some (Sent (mkResponse 200 (VArr [])),
          mkWorld 1 [Get EdsmSystem])
  /\ (fun _ : nat => Resolved (VArr [])) (1 - 1) = Resolved (VArr []).
Proof.
  split; [reflexivity|].
  apply (json_passes_through
           (fun _ => []) (fun _ => Resolved (VArr []))
           EdsmSystem 3 [("systemName", VStr "Sol")]
           (mkResponse 200 (VArr [])) (mkWorld 1 [Get EdsmSystem])).
  - right. reflexivity.
  - unfold maxAttempts. lia.
  - reflexivity.
  - reflexivity.
Defined.

(** ** The sphere-systems endpoint *)









(** * Further properties of the normalizer *)

(** X8: in a normalized record each of economy, security, distance and
    bodyCount is the source value when that value is truthy and the
    default ("", "", null, 0) otherwise; so a source distance of 0, the
    distance of the reference system itself, is reported as null, and a
    normalized distance is never 0. *)
Theorem falsy_source_values_are_replaced (system o : value) :
  formatEdsmSystem system = Normal o ->
  field "economy" o
  = (if truthy (field "economy" (information system))
     then field "economy" (information system) else VStr "")
  /\ field "security" o
     = (if truthy (field "security" (information system))
        then field "security" (information system) else VStr "")
  /\ field "distance" o
     = (if truthy (field "distance" system)
        then field "distance" system else VNull)
  /\ field "bodyCount" o
     = (if truthy (field "bodyCount" system)
        then field "bodyCount" system else of_Z 0)
  /\ (forall e, field "distance" system = VNum (Fin 0 e) ->
                field "distance" o = VNull)
  /\ (forall e, field "distance" o <> VNum (Fin 0 e)).
Proof.
  intros Hformat.
  destruct (is_nullish system) eqn:Hs.
  { destruct (formatEdsmSystem_nullish system Hs) as [e He].
    rewrite He in Hformat. discriminate Hformat. }
  rewrite (formatEdsmSystem_normal system Hs) in Hformat.
  injection Hformat as <-. cbn [field lookup]. cbn.
  split; [reflexivity|]. split; [reflexivity|].
  split; [reflexivity|]. split; [reflexivity|].
  unfold or_else. split.
  - intros e ->. reflexivity.
  - intros e. destruct (truthy (field "distance" system)) eqn:Ht;
      [|discriminate].
    intros E. rewrite E in Ht. cbn in Ht. discriminate Ht.
Qed.

Lemma falsy_source_values_are_replaced_witness :
  exists o,
    formatEdsmSystem (VObj [("name", VStr "Sol"); ("distance", of_Z 0)])
    = Normal o
    /\ field "distance" o = VNull.
Proof.
  eexists. split; [reflexivity|].
  destruct (falsy_source_values_are_replaced
              (VObj [("name", VStr "Sol"); ("distance", of_Z 0)]) _ eq_refl)
    as [_ [_ [_ [_ [Hzero _]]]]].
  apply (Hzero 0%Z). reflexivity.
Defined.

(** X9: whatever the source record holds, its normalized record reports
    no stations (0) and no direction (null), and a faction count of 0 or
    1: 1 exactly when the information block holds a truthy [faction]. *)
Theorem json_path_counts (system o : value) :
  formatEdsmSystem system = Normal o ->
  field "stations" o = of_Z 0
  /\ field "direction" o = VNull
  /\ (field "factions" o = of_Z 0 \/ field "factions" o = of_Z 1)
  /\ (field "factions" o = of_Z 1 <->
      truthy (field "faction" (information system)) = true).
Proof.
  intros Hformat.
  destruct (is_nullish system) eqn:Hs.
  { destruct (formatEdsmSystem_nullish system Hs) as [e He].
    rewrite He in Hformat. discriminate Hformat. }
  rewrite (formatEdsmSystem_normal system Hs) in Hformat.
  injection Hformat as <-. cbn [field lookup]. cbn.
  split; [reflexivity|]. split; [reflexivity|].
  destruct (truthy (field "faction" (information system))).
  - split; [right; reflexivity|]. split; reflexivity.
  - split; [left; reflexivity|]. split; discriminate.
Qed.

Lemma json_path_counts_witness :
  exists o,
    formatEdsmSystem
      (VObj [("information",
              VObj [("faction", VStr "Mother Gaia"); ("population", of_Z 5)])])
    = Normal o
    /\ field "factions" o = of_Z 1
    /\ field "stations" o = of_Z 0.
Proof.
  eexists. split; [reflexivity|].
  destruct (json_path_counts
              (VObj [("information",
                      VObj [("faction", VStr "Mother Gaia");
                            ("population", of_Z 5)])]) _ eq_refl)
    as [Hstations [_ [_ Hone]]].
  split; [apply Hone; reflexivity|exact Hstations].
Defined.

Lemma map_array_app_throw {A B : Type} (f : A -> completion B)
      (pre : list A) (bad : A) (post : list A) (e : error) :
  Forall (fun x => exists y, f x = Normal y) pre ->
  f bad = Throw e ->
  map_array f (pre ++ bad :: post) = Throw e.
Proof.
  intros Hpre Hbad. induction Hpre as [|x pre [y Hy] _ IH]; simpl.
  - rewrite Hbad. reflexivity.
  - rewrite Hy. simpl. rewrite IH. reflexivity.
Qed.

Lemma first_nullish (l : list value) :
  Forall (fun system => is_nullish system = false) l
  \/ exists pre bad post,
       l = (pre ++ bad :: post)%list
       /\ Forall (fun system => is_nullish system = false) pre
       /\ is_nullish bad = true.
Proof.
  induction l as [|x l IH].
  - left. constructor.
  - destruct (is_nullish x) eqn:Hx.
    + right. exists [], x, l. split; [reflexivity|].
      split; [constructor|exact Hx].
    + destruct IH as [Hall|[pre [bad [post [-> [Hpre Hbad]]]]]].
      * left. constructor; assumption.
      * right. exists (x :: pre), bad, post. split; [reflexivity|].
        split; [constructor; assumption|exact Hbad].
Qed.

(** X10: the normalizer returns normally exactly when no element of its
    input is null or undefined; otherwise it throws the error raised by
    the first such element, whatever the elements after it are. *)
Theorem formatEdsmSystems_throws_on_first_nullish (edsmSystems : list value) :
  ((exists out, formatEdsmSystems edsmSystems = Normal out) <->
   Forall (fun system => is_nullish system = false) edsmSystems)
  /\ (forall pre bad post,
        edsmSystems = (pre ++ bad :: post)%list ->
        Forall (fun system => is_nullish system = false) pre ->
        is_nullish bad = true ->
        exists e,
          formatEdsmSystem bad = Throw e
          /\ formatEdsmSystems edsmSystems = Throw e).
Proof.
  assert (Hthrow : forall pre bad post,
            Forall (fun system => is_nullish system = false) pre ->
            is_nullish bad = true ->
            exists e,
              formatEdsmSystem bad = Throw e
              /\ formatEdsmSystems (pre ++ bad :: post) = Throw e).
  { intros pre bad post Hpre Hbad.
    destruct (formatEdsmSystem_nullish bad Hbad) as [e He].
    exists e. split; [exact He|].
    apply map_array_app_throw; [|exact He].
    eapply Forall_impl; [|exact Hpre].
    intros system Hs. eexists. apply formatEdsmSystem_normal. exact Hs. }
  split.
  - split.
    + intros [out Hout].
      destruct (first_nullish edsmSystems)
        as [Hall|[pre [bad [post [-> [Hpre Hbad]]]]]]; [exact Hall|].
      destruct (Hthrow pre bad post Hpre Hbad) as [e [_ He]].
      rewrite He in Hout. discriminate Hout.
    + intros Hall.
      destruct (map_array_total formatEdsmSystem edsmSystems) as [out [Ho _]].
      * eapply Forall_impl; [|exact Hall].
        intros system Hs. eexists. apply formatEdsmSystem_normal. exact Hs.
      * exists out. exact Ho.
  - intros pre bad post -> Hpre Hbad. apply Hthrow; assumption.
Qed.

Lemma formatEdsmSystems_throws_on_first_nullish_witness :
  exists e,
    formatEdsmSystem VNull = Throw e
    /\ formatEdsmSystems [VObj [("name", VStr "Sol")]; VNull; VUndefined]
       = Throw e.
Proof.
  apply (proj2 (formatEdsmSystems_throws_on_first_nullish
                  [VObj [("name", VStr "Sol")]; VNull; VUndefined])
               [VObj [("name", VStr "Sol")]] VNull [VUndefined]).
  - reflexivity.
  - repeat constructor.
  - reflexivity.
Defined.

(** * Further properties of the extractor *)

Lemma trimStart_head (s : string) (c : ascii) (rest : string) :
  trimStart s = String c rest -> isWhiteSpace c = false.
Proof.
  induction s as [|a s IH]; simpl; [discriminate|].
  destruct (isWhiteSpace a) eqn:Ha; [exact IH|].
  intros E. injection E as <- _. exact Ha.
Qed.

Lemma trimEnd_head (s : string) (c : ascii) (rest : string) :
  (forall a t, s = String a t -> isWhiteSpace a = false) ->
  trimEnd s = String c rest -> isWhiteSpace c = false.
Proof.
  intros Hs. destruct s as [|a t]; simpl; [discriminate|].
  rewrite (Hs a t eq_refl). simpl.
  intros E. injection E as <- _. apply (Hs a t eq_refl).
Qed.

Lemma trimEnd_last (s front : string) (c : ascii) :
  trimEnd s = front ++ String c EmptyString -> isWhiteSpace c = false.
Proof.
  revert front. induction s as [|a s IH]; intros front; simpl.
  - destruct front; discriminate.
  - destruct (isWhiteSpace a && (trimEnd s =? "")) eqn:Hcond.
    + destruct front; discriminate.
    + destruct front as [|b front]; simpl; intros E; injection E as -> E.
      * rewrite E in Hcond. simpl in Hcond.
        rewrite andb_true_r in Hcond. exact Hcond.
      * apply (IH front). exact E.
Qed.

Lemma trim_trimmed (s : string) : trimmed (trim s).
Proof.
  unfold trim. split.
  - intros c rest E. apply (trimEnd_head (trimStart s) c rest); [|exact E].
    intros a t Ha. apply (trimStart_head s a t). exact Ha.
  - intros front c E. apply (trimEnd_last (trimStart s) front c). exact E.
Qed.

Lemma empty_trimmed : trimmed EmptyString.
Proof.
  split.
  - intros c rest E. discriminate E.
  - intros front c E. destruct front; discriminate E.
Qed.

Lemma cellString_trimmed (cells : list element) (i : nat) :
  trimmed (cellString cells i).
Proof.
  unfold cellString. destruct (nth_error cells i).
  - apply trim_trimmed.
  - apply empty_trimmed.
Qed.

(** X11: in every record the extractor produces, the name, economy,
    security and allegiance are texts with no white space at either
    end. *)
Theorem labels_are_trimmed
        (doc : document) (systems : list value) (o : value) (key : string) :
  parseDocument doc = Normal systems -> In o systems ->
  In key labelFields ->
  exists text, field key o = VStr text /\ trimmed text.
Proof.
  intros Hparse Hin Hkey.
  destruct (parseDocument_spec doc) as [systems' [E [_ Hshape]]].
  rewrite E in Hparse. injection Hparse as ->.
  rewrite Forall_forall in Hshape.
  destruct (Hshape _ Hin) as [cell0 [cells ->]].
  simpl in Hkey.
  destruct Hkey as [<-|[<-|[<-|[<-|[]]]]]; unfold rowObject; cbn [field lookup]; cbn.
  - unfold trimmedText, or_else.
    destruct (querySelector anchorSelector cell0) as [a|]; simpl.
    + destruct (String.eqb_spec (trim (textContent a)) "") as [Hz|_].
      * exists EmptyString. split; [reflexivity|apply empty_trimmed].
      * eexists. split; [reflexivity|apply trim_trimmed].
    + exists EmptyString. split; [reflexivity|apply empty_trimmed].
  - rewrite labelOf_cellString. eexists. split; [reflexivity|].
    apply cellString_trimmed.
  - rewrite labelOf_cellString. eexists. split; [reflexivity|].
    apply cellString_trimmed.
  - rewrite labelOf_cellString. eexists. split; [reflexivity|].
    apply cellString_trimmed.
Qed.

Lemma labels_are_trimmed_witness :
  exists text, field "name" sampleRecord = VStr text /\ trimmed text.
Proof.
  apply (labels_are_trimmed samplePage [sampleRecord] sampleRecord "name").
  - reflexivity.
  - left. reflexivity.
  - left. reflexivity.
Defined.

(** ** Completeness of the matcher *)

Lemma first_of_some (a b : option captures) :
  a <> None -> first_of a b <> None.
Proof.
  destruct a; [discriminate|contradiction].
Qed.

Lemma first_of_else (a b : option captures) :
  b <> None -> first_of a b <> None.
Proof.
  destruct a; [discriminate|intros H; exact H].
Qed.

Lemma class_complete (p : ascii -> bool) (a : ascii) (s2 : string)
      (c : captures) (k : cont) :
  p a = true -> (forall c', k s2 c' <> None) ->
  class p (String a s2) c k <> None.
Proof.
  intros Hp Hk. unfold class. rewrite Hp. apply Hk.
Qed.

Lemma repeat_complete (r : regex) (step : matcher) :
  complete_for (lang r) step ->
  forall s1, lang (Star r) s1 ->
  forall fuel s2 c k,
    (String.length (s1 ++ s2) <= fuel)%nat ->
    (forall c', k s2 c' <> None) ->
    repeat_matcher step fuel (s1 ++ s2) c k <> None.
Proof.
  intros Hstep s1 H. remember (Star r) as q eqn:Eq.
  induction H as [| | | | | | | r0 | r0 a b Ha _ Hb IHb | |];
    try discriminate; injection Eq as ->; intros fuel s2 c k Hfuel Hk.
  - simpl. destruct fuel; simpl; [apply Hk|].
    apply first_of_else. apply Hk.
  - destruct a as [|x a].
    + simpl. apply IHb; [reflexivity|exact Hfuel|exact Hk].
    + rewrite append_assoc in *.
      destruct fuel as [|fuel]; [simpl in Hfuel; lia|].
      cbn [repeat_matcher]. apply first_of_some.
      apply (Hstep (String x a) Ha).
      intros c'.
      assert (Hlt : (String.length (b ++ s2)
                     <? String.length (String x a ++ b ++ s2))%nat = true).
      { apply Nat.ltb_lt. simpl. rewrite (length_append a). lia. }
      rewrite Hlt. apply IHb; [reflexivity| |exact Hk].
      simpl in Hfuel. rewrite (length_append a) in Hfuel. lia.
Qed.

Theorem compile_complete (r : regex) : complete_for (lang r) (compile r).
Proof.
  induction r as [|a| | |r1 IH1 r2 IH2|r1 IH1|r1 IH1|r1 IH1|j r1 IH1];
    intros s1 H s2 c k Hk.
  - apply lang_Eps_inv in H. subst. apply Hk.
  - apply lang_Chr_inv in H. subst. simpl.
    apply class_complete; [apply Ascii.eqb_refl|exact Hk].
  - apply lang_Digit_inv in H. destruct H as [a [-> Ha]]. simpl.
    apply class_complete; assumption.
  - apply lang_Space_inv in H. destruct H as [a [-> Ha]]. simpl.
    apply class_complete; assumption.
  - apply lang_Seq_inv in H. destruct H as [t1 [t2 [-> [H1 H2]]]].
    rewrite append_assoc. simpl. apply (IH1 t1 H1).
    intros c'. apply (IH2 t2 H2). exact Hk.
  - apply lang_Opt_inv in H. simpl. destruct H as [->|H].
    + apply first_of_else. apply Hk.
    + apply first_of_some. apply (IH1 s1 H). exact Hk.
  - simpl. apply (repeat_complete r1 (compile r1) IH1 s1 H);
      [apply Nat.le_refl|exact Hk].
  - apply lang_Plus_inv in H. destruct H as [t1 [t2 [-> [H1 H2]]]].
    rewrite append_assoc. simpl. apply (IH1 t1 H1).
    intros c'. apply (repeat_complete r1 (compile r1) IH1 t2 H2);
      [apply Nat.le_refl|exact Hk].
  - apply lang_Group_inv in H. simpl. apply (IH1 s1 H).
    intros c'. apply Hk.
Qed.

(** [exec] succeeds as soon as some part of the text is a string of the
    pattern. *)
Theorem exec_complete (r : regex) (pre mid post : string) :
  lang r mid -> exec r (pre ++ mid ++ post) <> None.
Proof.
  intros Hmid.
  assert (Hhere : forall s, s = mid ++ post ->
            compile r s [] (fun _ c => Some c) <> None).
  { intros s ->. apply (compile_complete r mid Hmid). discriminate. }
  induction pre as [|a pre IH].
  - simpl. specialize (Hhere _ eq_refl).
    destruct (mid ++ post) as [|x t]; simpl;
      destruct (compile r _ [] _); try discriminate; contradiction.
  - simpl. destruct (compile r _ [] _); [discriminate|exact IH].
Qed.

Lemma every_digits_lang (d : string) :
  every isDigit d = true -> lang (Star Digit) d.
Proof.
  induction d as [|c d IH]; simpl; intros H; [constructor|].
  apply andb_prop in H. destruct H as [Hc Hd].
  apply (lang_Star_cons Digit (String c EmptyString) d).
  - constructor. exact Hc.
  - apply IH. exact Hd.
Qed.

Lemma digits_lang (d : string) :
  every isDigit d = true -> d <> EmptyString -> lang (Plus Digit) d.
Proof.
  destruct d as [|c d]; [contradiction|]. simpl. intros H _.
  apply andb_prop in H. destruct H as [Hc Hd].
  apply (lang_Plus Digit (String c EmptyString) d).
  - constructor. exact Hc.
  - apply every_digits_lang. exact Hd.
Qed.

Lemma spaces_lang (ws : string) :
  every isWhiteSpace ws = true -> lang (Star Space) ws.
Proof.
  induction ws as [|c ws IH]; simpl; intros H; [constructor|].
  apply andb_prop in H. destruct H as [Hc Hw].
  apply (lang_Star_cons Space (String c EmptyString) ws).
  - constructor. exact Hc.
  - apply IH. exact Hw.
Qed.

Lemma Lit_lang (text : string) : lang (Lit text) text.
Proof.
  induction text as [|c text IH]; simpl; [constructor|].
  apply (lang_Seq (Chr c) (Lit text) (String c EmptyString) text).
  - constructor.
  - exact IH.
Qed.

(** ** Distance and direction *)

Lemma append_nil_r' (a : string) : a ++ "" = a.
Proof.
  induction a; simpl; [reflexivity|f_equal; assumption].
Qed.

Lemma span_digits_app (d rest : string) :
  every isDigit d = true ->
  (forall c t, rest = String c t -> isDigit c = false) ->
  span_digits (d ++ rest) = (d, rest).
Proof.
  intros Hd Hrest. induction d as [|c d IH]; simpl.
  - destruct rest as [|c t]; [reflexivity|].
    simpl. rewrite (Hrest c t eq_refl). reflexivity.
  - simpl in Hd. apply andb_prop in Hd. destruct Hd as [Hc Hd].
    rewrite Hc, (IH Hd). reflexivity.
Qed.

Lemma digit_first (c : ascii) (rest : string) :
  isDigit c = true ->
  strip_sign (trimStart (String c rest)) = (false, String c rest)
  /\ prefix "Infinity" (String c rest) = false.
Proof.
  intros Hc. apply isDigit_cases in Hc.
  repeat (destruct Hc as [->|Hc]; [split; reflexivity|]).
  subst. split; reflexivity.
Qed.

Lemma parse_digits_nonneg (s : string) (z : Z) :
  parse_digits 10 s None = Some z -> (0 <= z)%Z.
Proof.
  destruct s as [|c s]; simpl; [discriminate|].
  destruct (digit_value c) as [d|] eqn:Hd; [|discriminate].
  destruct (Z.ltb_spec d 10); [|discriminate].
  assert (Hpos : (0 <= d)%Z).
  { unfold digit_value in Hd.
    repeat match type of Hd with
           | (if ?b then _ else _) = _ => destruct b eqn:?
           end; try discriminate; injection Hd as <-; lia. }
  destruct (parse_digits_some 10 s d) as [z' [Hz' Hz'pos]]; [lia|exact Hpos|].
  rewrite Hz'. intros E. injection E as <-. exact Hz'pos.
Qed.

Lemma digits_to_Z_nonneg (s : string) : (0 <= digits_to_Z s)%Z.
Proof.
  unfold digits_to_Z.
  destruct (parse_digits 10 s None) as [z|] eqn:Hz; [|lia].
  apply (parse_digits_nonneg s z Hz).
Qed.

(** [parseFloat] on digits, a point and digits. *)
Lemma parseFloat_decimal (d1 d2 : string) :
  every isDigit d1 = true -> d1 <> EmptyString ->
  every isDigit d2 = true -> d2 <> EmptyString ->
  parseFloat (d1 ++ "." ++ d2)
  = ofDecimal false (digits_to_Z (d1 ++ d2))
              (- Z.of_nat (String.length d2)).
Proof.
  intros H1 Hne1 H2 Hne2. unfold parseFloat.
  destruct d1 as [|c d1]; [contradiction|].
  assert (Hc : isDigit c = true)
    by (simpl in H1; apply andb_prop in H1; tauto).
  destruct (digit_first c (d1 ++ "." ++ d2) Hc) as [Hsign Hinf].
  change (String c d1 ++ "." ++ d2) with (String c (d1 ++ "." ++ d2)).
  rewrite Hsign. cbv beta iota. rewrite Hinf.
  change (String c (d1 ++ "." ++ d2)) with (String c d1 ++ String "." d2).
  rewrite (span_digits_app (String c d1) (String "." d2) H1).
  2:{ intros x t E. injection E as <- _. reflexivity. }
  cbv beta iota.
  replace d2 with (d2 ++ "") at 1 by apply append_nil_r'.
  rewrite (span_digits_app d2 "" H2).
  2:{ intros x t E. discriminate E. }
  cbv beta iota.
  destruct d2 as [|c2 d2]; [contradiction|].
  simpl ((String c d1 =? "") && (String c2 d2 =? "")).
  cbv beta iota. simpl (exponent_part ""). f_equal.
Qed.

Lemma distanceOf_shape (text : string) :
  distanceOf text = VNull
  \/ distanceOf text = VNum (Inf false)
  \/ exists m e, distanceOf text = VNum (Fin m e) /\ (0 <= m)%Z.
Proof.
  unfold distanceOf.
  destruct (exec distancePattern text) as [m|] eqn:Hm; [|left; reflexivity].
  right.
  destruct (exec_sound
              (fun _ g => lang (Seq (Plus Digit) (Seq (Chr ".") (Plus Digit))) g)
              distancePattern text m) as [_ [Hgood Hset]].
  - simpl. tauto.
  - exact Hm.
  - specialize (Hset 1 eq_refl).
    destruct (group 1 m) as [g|] eqn:Hg; [|contradiction].
    apply group_In in Hg. unfold good in Hgood.
    rewrite Forall_forall in Hgood. specialize (Hgood _ Hg). simpl in Hgood.
    apply lang_Seq_inv in Hgood. destruct Hgood as [d1 [rest [-> [Hd1 Hrest]]]].
    apply lang_Seq_inv in Hrest. destruct Hrest as [dot [d2 [-> [Hdot Hd2]]]].
    apply lang_Chr_inv in Hdot. subst dot.
    apply lang_Plus_Digit in Hd1, Hd2.
    destruct Hd1 as [Hd1 Hne1], Hd2 as [Hd2 Hne2].
    cbn [argString].
    rewrite (parseFloat_decimal d1 d2 Hd1 Hne1 Hd2 Hne2).
    destruct (ofDecimal_shape false (digits_to_Z (d1 ++ d2))
                (- Z.of_nat (String.length d2))
                (digits_to_Z_nonneg _)) as [-> | [m' [e' [Hm' ->]]]].
    + left. reflexivity.
    + right. exists m', e'. split; [reflexivity|exact Hm'].
Qed.

Lemma distanceOf_complete (text : string) :
  hasDecimalDistance text -> distanceOf text <> VNull.
Proof.
  intros [pre [d1 [d2 [ws [post [-> [H1 [Hne1 [H2 [Hne2 Hws]]]]]]]]]].
  unfold distanceOf.
  assert (Hlang : lang distancePattern ((d1 ++ "." ++ d2) ++ ws ++ "Ly")).
  { unfold distancePattern. constructor.
    - constructor. constructor; [apply digits_lang; assumption|].
      apply (lang_Seq (Chr ".") (Plus Digit) (String "." EmptyString) d2).
      + constructor.
      + apply digits_lang; assumption.
    - constructor; [apply spaces_lang; assumption|apply (Lit_lang "Ly")]. }
  pose proof (exec_complete distancePattern pre _ post Hlang) as Hexec.
  replace (pre ++ ((d1 ++ "." ++ d2) ++ ws ++ "Ly") ++ post)
    with (pre ++ (d1 ++ "." ++ d2) ++ ws ++ "Ly" ++ post) in Hexec.
  - destruct (exec distancePattern _); [discriminate|contradiction].
  - f_equal. rewrite !append_assoc. reflexivity.
Qed.

(** X12: the distance of an extracted record is non-null exactly when the
    trimmed text of the distance cell holds digits, a decimal point,
    digits, optional white space and "Ly"; it is then a number that is
    not negative, or the positive infinity when the digits go beyond the
    range of binary64 (never NaN), and null otherwise. *)
Theorem distance_is_recognized_exactly
        (cell0 : element) (cells : list element) :
  (field "distance" (rowObject cell0 cells) <> VNull <->
   hasDecimalDistance (cellString cells 6))
  /\ (field "distance" (rowObject cell0 cells) = VNull
      \/ field "distance" (rowObject cell0 cells) = VNum (Inf false)
      \/ exists m e,
           field "distance" (rowObject cell0 cells) = VNum (Fin m e)
           /\ (0 <= m)%Z).
Proof.
  unfold rowObject. cbn [field lookup]. cbn.
  rewrite distanceText_cellString. split.
  - split; [apply distanceOf_sound|apply distanceOf_complete].
  - apply distanceOf_shape.
Qed.

Lemma lang_rotatePattern (mid : string) :
  lang rotatePattern mid <->
  exists sign d,
    mid = "rotate(" ++ (sign ++ d) ++ "deg)"
    /\ (sign = EmptyString \/ sign = "-")
    /\ every isDigit d = true /\ d <> EmptyString.
Proof.
  unfold rotatePattern. split.
  - intros H.
    apply lang_Seq_inv in H. destruct H as [head [tail [-> [Hhead Htail]]]].
    apply lang_Lit in Hhead. subst head.
    apply lang_Seq_inv in Htail. destruct Htail as [g [unit [-> [Hg Hunit]]]].
    apply lang_Lit in Hunit. subst unit.
    apply lang_Group_inv, lang_Seq_inv in Hg.
    destruct Hg as [sign [d [-> [Hsign Hd]]]].
    apply lang_Plus_Digit in Hd.
    exists sign, d. split; [reflexivity|]. split; [|exact Hd].
    apply lang_Opt_inv in Hsign. destruct Hsign as [->|Hsign]; [tauto|].
    apply lang_Chr_inv in Hsign. tauto.
  - intros [sign [d [-> [Hsign [Hd Hne]]]]].
    constructor; [apply (Lit_lang "rotate(")|].
    constructor; [|apply (Lit_lang "deg)")].
    constructor. constructor; [|apply digits_lang; assumption].
    destruct Hsign as [-> | ->]; [apply lang_Opt_none|].
    apply lang_Opt_some. constructor.
Qed.

Lemma rotation_found (style : string) :
  exec rotatePattern style <> None <-> hasRotation style.
Proof.
  split.
  - intros H. destruct (exec rotatePattern style) as [m|] eqn:Hm;
      [|contradiction].
    destruct (exec_sound (fun _ _ => True) rotatePattern style m)
      as [[pre [mid [post [-> Hmid]]]] _]; [simpl; tauto|exact Hm|].
    apply lang_rotatePattern in Hmid.
    destruct Hmid as [sign [d [-> Hrest]]].
    exists pre, sign, d, post. split; [|exact Hrest].
    f_equal. rewrite !append_assoc. reflexivity.
  - intros [pre [sign [d [post [-> Hrest]]]]].
    assert (Hlang : lang rotatePattern ("rotate(" ++ (sign ++ d) ++ "deg)")).
    { apply lang_rotatePattern. exists sign, d. split; [reflexivity|exact Hrest]. }
    pose proof (exec_complete rotatePattern pre _ post Hlang) as Hexec.
    replace (pre ++ ("rotate(" ++ (sign ++ d) ++ "deg)") ++ post)
      with (pre ++ "rotate(" ++ (sign ++ d) ++ "deg)" ++ post) in Hexec;
      [exact Hexec|].
    f_equal. rewrite !append_assoc. reflexivity.
Qed.

(** X13: the direction of an extracted record is non-null exactly when
    the distance cell holds an element of class [distancedirection]
    whose [style] attribute (that of the first such element) holds
    "rotate(", an optional minus sign, digits and "deg)". *)
Theorem direction_is_recognized_exactly
        (cell0 : element) (cells : list element) :
  field "direction" (rowObject cell0 cells) <> VNull <->
  exists style, directionStyle cells = Some style /\ hasRotation style.
Proof.
  change (field "direction" (rowObject cell0 cells))
    with (directionOf (nth_error cells 6)).
  unfold directionStyle, directionOf.
  destruct (nth_error cells 6) as [cell6|];
    [|split; [congruence|intros [s [H _]]; discriminate H]].
  destruct (querySelector directionSelector cell6) as [span|];
    [|split; [congruence|intros [s [H _]]; discriminate H]].
  destruct (getAttribute "style" (attributes span)) as [style|];
    [|split; [congruence|intros [s [H _]]; discriminate H]].
  split.
  - intros H. exists style. split; [reflexivity|].
    apply rotation_found.
    destruct (truthy (VStr style)); [|congruence].
    destruct (exec rotatePattern style); [discriminate|congruence].
  - intros [s [E Hrot]]. injection E as <-.
    assert (Htruthy : truthy (VStr style) = true).
    { destruct Hrot as [pre [sign [d [post [-> _]]]]].
      destruct pre; reflexivity. }
    rewrite Htruthy. apply rotation_found in Hrot.
    destruct (exec rotatePattern style); [discriminate|congruence].
Qed.

(** * Properties of the upstream URLs *)

Lemma encodeUnit_safe (c : ascii) : every urlSafe (encodeUnit c) = true.
Proof.
  destruct c as [[] [] [] [] [] [] [] []]; vm_compute; reflexivity.
Qed.

Lemma encodeText_safe (s : string) : every urlSafe (encodeText s) = true.
Proof.
  induction s as [|c s IH]; simpl; [reflexivity|].
  rewrite every_append, encodeUnit_safe, IH. reflexivity.
Qed.

Lemma urlSafe_not_separator (c : ascii) :
  urlSafe c = true -> isSeparator c = false.
Proof.
  destruct c as [[] [] [] [] [] [] [] []]; vm_compute; congruence.
Qed.

Lemma occurrences_append (c : ascii) (a b : string) :
  occurrences c (a ++ b) = occurrences c a + occurrences c b.
Proof.
  induction a as [|x a IH]; simpl; [reflexivity|]. rewrite IH. lia.
Qed.

Lemma occurrences_safe (c : ascii) (s : string) :
  isSeparator c = true -> every urlSafe s = true -> occurrences c s = 0.
Proof.
  intros Hc. induction s as [|x s IH]; simpl; [reflexivity|].
  intros H. apply andb_prop in H. destruct H as [Hx Hs].
  rewrite (IH Hs). destruct (Ascii.eqb_spec x c) as [->|_]; [|reflexivity].
  apply urlSafe_not_separator in Hx. rewrite Hx in Hc. discriminate Hc.
Qed.

Lemma encodeURIComponent_text (v : value) (name : string) :
  toString v = Normal name ->
  encodeURIComponent v = Normal (encodeText name).
Proof.
  intros H. unfold encodeURIComponent. rewrite H. reflexivity.
Qed.

Lemma encodeURIComponent_throws (v : value) (e : error) :
  toString v = Throw e -> encodeURIComponent v = Throw e.
Proof.
  intros H. unfold encodeURIComponent. rewrite H. reflexivity.
Qed.

(** X14: in the upstream URLs the system name appears percent-encoded,
    made of unreserved characters and percent signs only; whatever the
    name converts to, it adds no separator to the URL: the
    nearest-systems URL always has 11 [&] and 12 [=], the bodies URL none
    and one, the system-coordinates URL one and two, each has a single
    [?] and no [#]. A URL is built whenever the name can be converted to
    a string, and the TypeError of the conversion is thrown otherwise. *)
Theorem system_name_is_escaped (query : list (string * value)) :
  (forall name,
     toString (lookup "referenceSystem" query) = Normal name ->
     every urlSafe (encodeText name) = true
     /\ exists url,
          inaraUrl query = Normal url
          /\ occurrences "&" url = 11
          /\ occurrences "=" url = 12
          /\ occurrences "?" url = 1
          /\ occurrences "#" url = 0)
  /\ (forall name,
        toString (lookup "systemName" query) = Normal name ->
        every urlSafe (encodeText name) = true
        /\ (exists url,
              bodiesUrl query = Normal url
              /\ occurrences "&" url = 0
              /\ occurrences "=" url = 1
              /\ occurrences "?" url = 1
              /\ occurrences "#" url = 0)
        /\ (exists url,
              systemUrl query = Normal url
              /\ occurrences "&" url = 1
              /\ occurrences "=" url = 2
              /\ occurrences "?" url = 1
              /\ occurrences "#" url = 0))
  /\ (forall e,
        toString (lookup "referenceSystem" query) = Throw e ->
        inaraUrl query = Throw e)
  /\ (forall e,
        toString (lookup "systemName" query) = Throw e ->
        bodiesUrl query = Throw e /\ systemUrl query = Throw e
        /\ sphereUrl query = Throw e).
Proof.
  assert (Hcount : forall c name,
            isSeparator c = true -> occurrences c (encodeText name) = 0).
  { intros c name Hc. apply occurrences_safe; [exact Hc|].
    apply encodeText_safe. }
  split; [|split; [|split]].
  - intros name Hname. split; [apply encodeText_safe|].
    unfold inaraUrl. rewrite (encodeURIComponent_text _ _ Hname).
    cbn [bind]. eexists. split; [reflexivity|].
    repeat split; rewrite !occurrences_append, Hcount by reflexivity;
      destruct (isTrueText (lookup "anyPopulation" query)); reflexivity.
  - intros name Hname. split; [apply encodeText_safe|].
    unfold bodiesUrl, systemUrl. rewrite (encodeURIComponent_text _ _ Hname).
    cbn [bind]. split; eexists; (split; [reflexivity|]);
      repeat split; rewrite !occurrences_append, Hcount by reflexivity;
      reflexivity.
  - intros e He. unfold inaraUrl.
    rewrite (encodeURIComponent_throws _ _ He). reflexivity.
  - intros e He. unfold bodiesUrl, systemUrl, sphereUrl.
    rewrite (encodeURIComponent_throws _ _ He). repeat split; reflexivity.
Qed.

Lemma system_name_is_escaped_witness :
  exists url,
    bodiesUrl [("systemName", VStr "Sol & Co")] = Normal url
    /\ occurrences "&" url = 0.
Proof.
  destruct (proj1 (proj2 (system_name_is_escaped
                            [("systemName", VStr "Sol & Co")]))
                  "Sol & Co" eq_refl)
    as [_ [[url [Hurl [Hamp _]]] _]].
  exists url. split; [exact Hurl|exact Hamp].
Defined.

Lemma decodeHead_encodeUnit (c : ascii) (rest : string) :
  decodeHead (encodeUnit c ++ rest) = Some (c, rest).
Proof.
  destruct c as [[] [] [] [] [] [] [] []]; reflexivity.
Qed.

Lemma encodeText_injective (s1 s2 : string) :
  encodeText s1 = encodeText s2 -> s1 = s2.
Proof.
  revert s2. induction s1 as [|c1 s1 IH]; intros [|c2 s2] H; simpl in H.
  - reflexivity.
  - apply (f_equal decodeHead) in H.
    rewrite decodeHead_encodeUnit in H. discriminate H.
  - apply (f_equal decodeHead) in H.
    rewrite decodeHead_encodeUnit in H. discriminate H.
  - apply (f_equal decodeHead) in H.
    rewrite !decodeHead_encodeUnit in H. injection H as -> H.
    f_equal. apply IH. exact H.
Qed.

(** X15: the percent-encoding loses nothing: two requests for which the
    same bodies URL, or the same system-coordinates URL, is built have
    system names that convert to the same text. *)
Theorem same_url_same_system (u : upstream)
        (query1 query2 : list (string * value)) (url : string) :
  u = EdsmBodies \/ u = EdsmSystem ->
  upstreamUrl u query1 = Normal url ->
  upstreamUrl u query2 = Normal url ->
  toString (lookup "systemName" query1)
  = toString (lookup "systemName" query2).
Proof.
  intros [-> | ->] H1 H2; cbn [upstreamUrl] in H1, H2;
    unfold bodiesUrl, systemUrl, encodeURIComponent in H1, H2;
    destruct (toString (lookup "systemName" query1)) as [name1|];
    try discriminate H1;
    destruct (toString (lookup "systemName" query2)) as [name2|];
    try discriminate H2;
    cbn [bind] in H1, H2; injection H1 as <-; injection H2 as H2;
    apply encodeText_injective in H2;
    rewrite H2; reflexivity.
Qed.

Lemma same_url_same_system_witness :
  toString (lookup "systemName" [("systemName", VStr "Sol")])
  = toString (lookup "systemName"
                     [("other", VNull); ("systemName", VStr "Sol")]).
Proof.
  apply (same_url_same_system
           EdsmBodies
           [("systemName", VStr "Sol")]
           [("other", VNull); ("systemName", VStr "Sol")]
           "https://www.edsm.net/api-system-v1/bodies?systemName=Sol").
  - left. reflexivity.
  - reflexivity.
  - reflexivity.
Defined.

(** * Properties of the Earth-like-world finder *)

Lemma findEarthLike_readable (bodies : list value) :
  Forall (fun body => is_nullish body = false) bodies ->
  findEarthLike bodies = Normal (hasEarthLike bodies).
Proof.
  induction 1 as [|body bodies Hb _ IH]; simpl; [reflexivity|].
  rewrite (get_not_nullish body "subType" Hb). cbn [bind].
  destruct (isEarthLike (field "subType" body)); [reflexivity|exact IH].
Qed.

Lemma inspectBodies_readable (data : value) (bodies : list value) :
  field "bodies" data = VArr bodies ->
  Forall (fun body => is_nullish body = false) bodies ->
  exists verdict,
    inspectBodies data = Normal verdict
    /\ (verdict = Some true <-> hasEarthLike bodies = true).
Proof.
  intros Hfield Hall. unfold inspectBodies.
  assert (Hnn : is_nullish data = false).
  { destruct data; try reflexivity; discriminate Hfield. }
  rewrite (get_not_nullish data "bodies" Hnn), Hfield. cbn [bind lengthOf].
  destruct bodies as [|body bodies].
  - exists None. split; [reflexivity|]. split; discriminate.
  - assert (Hlen : truthy (of_Z (Z.of_nat (List.length (body :: bodies)))) = true).
    { cbn [truthy of_Z number_truthy List.length].
      destruct (Z.eqb_spec (Z.of_nat (S (List.length bodies))) 0); [lia|reflexivity]. }
    rewrite Hlen. cbn [negb iterate bind].
    rewrite (findEarthLike_readable _ Hall). cbn [bind].
    eexists. split; [reflexivity|]. split.
    + intros E. injection E as E. exact E.
    + intros E. rewrite E. reflexivity.
Qed.

Lemma population_readable (system : value) :
  is_nullish system = false ->
  exists p, population system = Normal p /\ unpopulated system = isZero p.
Proof.
  intros Hs. unfold unpopulated, population.
  rewrite (get_not_nullish system "information" Hs). cbn [bind].
  destruct (is_nullish (field "information" system)) eqn:Hi.
  - eexists. split; reflexivity.
  - rewrite (get_not_nullish _ "population" Hi).
    eexists. split; reflexivity.
Qed.

(** What the loop does before a request: the name is read and converted
    for the log line, then the URL is built. *)
Lemma beforeRequest (system : value) (url : string) :
  bodiesUrlOf system = Normal url ->
  (name <- get system "name" ;;
   logged <- toString name ;;
   bodiesUrl <- bodiesUrlOf system ;;
   Normal (name, bodiesUrl))
  = Normal (field "name" system, url).
Proof.
  intros Hurl. rewrite Hurl. revert Hurl.
  unfold bodiesUrlOf, encodeURIComponent.
  destruct system; try discriminate; cbn [get bind field];
    destruct (toString _); try discriminate; reflexivity.
Qed.

Lemma beforeRequest_throws (system : value) (e : error) :
  is_nullish system = false ->
  toString (field "name" system) = Throw e ->
  (name <- get system "name" ;;
   logged <- toString name ;;
   bodiesUrl <- bodiesUrlOf system ;;
   Normal (name, bodiesUrl))
  = Throw e.
Proof.
  intros Hs He. rewrite (get_not_nullish system "name" Hs).
  cbn [bind]. rewrite He. reflexivity.
Qed.

Lemma forEachSystem_readable (env : nat -> fetched) (systems : list value) :
  Forall (fun system => is_nullish system = false) systems ->
  forall results urls requested,
    map_array bodiesUrlOf (filter unpopulated systems) = Normal requested ->
    (forall k, (k < List.length (filter unpopulated systems))%nat ->
               readableBodies (env (List.length urls + k))) ->
    forEachSystem env systems results urls
    = (Normal (Found (results
                        ++ selected env (List.length urls)
                             (filter unpopulated systems))%list),
       (urls ++ requested)%list).
Proof.
  induction 1 as [|system systems Hs _ IH];
    intros results urls requested Hurls Hread.
  - simpl in Hurls. injection Hurls as <-.
    simpl. rewrite !app_nil_r. reflexivity.
  - destruct (population_readable system Hs) as [p [Hp Hunp]].
    cbn [forEachSystem filter] in Hurls, Hread |- *.
    rewrite Hunp in Hurls, Hread |- *. rewrite Hp.
    destruct (isZero p) eqn:Hz.
    + assert (Hu : isUndefined p = false)
        by (destruct p; try reflexivity; discriminate Hz).
      rewrite Hu. cbn [negb orb].
      cbn [map_array] in Hurls.
      pose proof (beforeRequest system) as Hbefore.
      destruct (bodiesUrlOf system) as [url|] eqn:Hurl;
        [|discriminate Hurls].
      cbn [bind] in Hurls.
      destruct (map_array bodiesUrlOf (filter unpopulated systems))
        as [others|] eqn:Hothers; [|discriminate Hurls].
      cbn [bind] in Hurls. injection Hurls as <-.
      rewrite (Hbefore url eq_refl).
      unfold makeHTTPRequest.
      destruct (Hread 0) as [data [bodies [Henv [Hfield Hall]]]];
        [simpl; lia|].
      rewrite Nat.add_0_r in Henv. rewrite Henv. cbn [Nat.eqb negb bind].
      destruct (inspectBodies_readable data bodies Hfield Hall)
        as [verdict [Hv Hiff]].
      rewrite Hv.
      assert (Hbodies : bodiesOf env (List.length urls) = bodies).
      { unfold bodiesOf. rewrite Henv, Hfield. reflexivity. }
      cbn [selected map]. rewrite Hbodies.
      assert (Hnext : forall k,
                 (k < List.length (filter unpopulated systems))%nat ->
                 readableBodies
                   (env (List.length (urls ++ [url]) + k))).
      { intros k Hk. rewrite length_app. simpl.
        replace (List.length urls + 1 + k) with (List.length urls + S k) by lia.
        apply Hread. simpl. lia. }
      destruct verdict as [[|]|].
      * rewrite (proj1 Hiff eq_refl).
        rewrite (IH _ _ _ eq_refl Hnext), length_app. simpl.
        rewrite Nat.add_1_r, <- !app_assoc. reflexivity.
      * destruct (hasEarthLike bodies) eqn:Hh;
          [pose proof (proj2 Hiff eq_refl) as E; discriminate E|].
        rewrite (IH _ _ _ eq_refl Hnext), length_app. simpl.
        rewrite Nat.add_1_r, <- !app_assoc. reflexivity.
      * destruct (hasEarthLike bodies) eqn:Hh;
          [pose proof (proj2 Hiff eq_refl) as E; discriminate E|].
        rewrite (IH _ _ _ eq_refl Hnext), length_app. simpl.
        rewrite Nat.add_1_r, <- !app_assoc. reflexivity.
    + cbn [negb orb]. apply (IH _ _ _ Hurls Hread).
Qed.

(** X16: when the first answer is an array of systems none of which is
    null, the name of each system whose population is the number 0 can
    be converted to a string, so that the bodies URL of each can be
    built, and each bodies request is answered with status 200 and a
    body list without null entries, the finder requests the bodies of
    exactly those systems, in their order, after the one request for the
    systems, and reports the names of those among them whose body list
    holds an Earth-like world, in that order and once each. *)
Theorem finder_reports_unpopulated_earth_likes
        (env : nat -> fetched) (systems : list value)
        (requested : list string) :
  env 0 = Fetched 200 (Normal (VArr systems)) ->
  Forall (fun system => is_nullish system = false) systems ->
  map_array bodiesUrlOf (filter unpopulated systems) = Normal requested ->
  (forall k, (k < List.length (filter unpopulated systems))%nat ->
             readableBodies (env (S k))) ->
  main env
  = (Normal (Found (selected env 1 (filter unpopulated systems))),
     ALL_SYSTEMS_URL :: requested).
Proof.
  intros Hfirst Hall Hurls Hread. unfold main, makeHTTPRequest.
  cbn [List.length app]. rewrite Hfirst.
  cbn [Nat.eqb negb lengthOf isUndefined of_Z iterate].
  rewrite (forEachSystem_readable env systems Hall [] [ALL_SYSTEMS_URL]
             requested Hurls).
  - reflexivity.
  - intros k Hk. apply Hread. exact Hk.
Qed.

Lemma finder_reports_unpopulated_earth_likes_witness :
  main sampleFetch
  = (Normal (Found [VStr "Alpha"]),
     [ ALL_SYSTEMS_URL;
       "https://www.edsm.net/api-system-v1/bodies?systemName=Alpha";
       "https://www.edsm.net/api-system-v1/bodies?systemName=Gamma%20Two" ]).
Proof.
  apply (finder_reports_unpopulated_earth_likes sampleFetch sampleSystems).
  - reflexivity.
  - repeat constructor.
  - reflexivity.
  - intros k Hk. simpl in Hk.
    destruct k as [|[|k]]; [| |lia]; do 2 eexists;
      (split; [reflexivity|]); (split; [reflexivity|]); repeat constructor.
Defined.

(** X17: the finder needs status 200 from its first request: with any
    other status it makes no further request and throws when it reads the
    length of the missing answer, the check for an empty response coming
    too late; with status 200 and an object without a [length] it ends
    with the empty-response report, again after that single request. *)
Theorem finder_needs_the_system_list
        (env : nat -> fetched) (status : nat) (json : completion value) :
  env 0 = Fetched status json ->
  (status <> 200 ->
   exists e, main env = (Throw e, [ALL_SYSTEMS_URL]))
  /\ (forall props,
        status = 200 -> json = Normal (VObj props) ->
        lookup "length" props = VUndefined ->
        main env = (Normal EmptyResponse, [ALL_SYSTEMS_URL])).
Proof.
  intros Hfirst. split.
  - intros Hstatus. unfold main, makeHTTPRequest.
    cbn [List.length app]. rewrite Hfirst.
    destruct (Nat.eqb_spec status 200) as [E|_]; [contradiction|].
    cbn [negb lengthOf]. eexists. reflexivity.
  - intros props -> -> Hlen. unfold main, makeHTTPRequest.
    cbn [List.length app]. rewrite Hfirst.
    cbn [Nat.eqb negb lengthOf]. rewrite Hlen. reflexivity.
Qed.

Lemma finder_needs_the_system_list_witness :
  (exists e,
      main (fun _ => Fetched 503 (Normal VNull))
      = (Throw e, [ALL_SYSTEMS_URL]))
  /\ main (fun _ => Fetched 200 (Normal (VObj [])))
     = (Normal EmptyResponse, [ALL_SYSTEMS_URL]).
Proof.
  split.
  - apply (proj1 (finder_needs_the_system_list
                    (fun _ => Fetched 503 (Normal VNull)) 503 (Normal VNull)
                    eq_refl)).
    discriminate.
  - apply (proj2 (finder_needs_the_system_list
                    (fun _ => Fetched 200 (Normal (VObj [])))
                    200 (Normal (VObj [])) eq_refl) []); reflexivity.
Defined.

Lemma forEachSystem_skips (env : nat -> fetched) (pre rest : list value)
      (results : list value) (urls : list string) :
  Forall (fun system => is_nullish system = false
                        /\ unpopulated system = false) pre ->
  forEachSystem env (pre ++ rest) results urls
  = forEachSystem env rest results urls.
Proof.
  induction 1 as [|system pre [Hs Hu] _ IH]; [reflexivity|].
  destruct (population_readable system Hs) as [p [Hp Hunp]].
  rewrite Hu in Hunp. cbn [app forEachSystem]. rewrite Hp, <- Hunp.
  cbn [negb orb]. exact IH.
Qed.

(** X18: a bodies request answered with a status other than 200 ends the
    search: when the first unpopulated system of the list gets such an
    answer, the finder throws after that second request, whatever
    systems follow, and reports nothing. When the name of that system
    cannot be converted to a string, the finder throws the TypeError of
    the conversion before it makes the second request. *)
Theorem finder_stops_at_failed_bodies_request
        (env : nat -> fetched) (pre : list value) (system : value)
        (post : list value) (status : nat) (json : completion value) :
  env 0 = Fetched 200 (Normal (VArr (pre ++ system :: post))) ->
  Forall (fun s => is_nullish s = false /\ unpopulated s = false) pre ->
  is_nullish system = false ->
  unpopulated system = true ->
  env 1 = Fetched status json ->
  status <> 200 ->
  (forall url,
     bodiesUrlOf system = Normal url ->
     exists e, main env = (Throw e, [ALL_SYSTEMS_URL; url]))
  /\ (forall e,
        toString (field "name" system) = Throw e ->
        main env = (Throw e, [ALL_SYSTEMS_URL])).
Proof.
  intros Hfirst Hpre Hs Hu Hsecond Hstatus.
  unfold main, makeHTTPRequest. cbn [List.length app]. rewrite Hfirst.
  cbn [Nat.eqb negb lengthOf isUndefined of_Z iterate].
  rewrite (forEachSystem_skips env pre (system :: post) [] _ Hpre).
  destruct (population_readable system Hs) as [p [Hp Hunp]].
  rewrite Hu in Hunp. cbn [forEachSystem]. rewrite Hp, <- Hunp.
  assert (Hundef : isUndefined p = false)
    by (destruct p; try reflexivity; discriminate Hunp).
  rewrite Hundef. cbn [negb orb]. split.
  - intros url Hurl.
    rewrite (beforeRequest system url Hurl).
    unfold makeHTTPRequest. cbn [List.length]. rewrite Hsecond.
    destruct (Nat.eqb_spec status 200) as [E|_]; [contradiction|].
    cbn [negb bind app]. eexists. reflexivity.
  - intros e He. rewrite (beforeRequest_throws system e Hs He). reflexivity.
Qed.

Lemma finder_stops_at_failed_bodies_request_witness :
  exists e,
    main failingFetch
    = (Throw e,
       [ ALL_SYSTEMS_URL;
         "https://www.edsm.net/api-system-v1/bodies?systemName=Alpha" ]).
Proof.
  refine (proj1 (finder_stops_at_failed_bodies_request
           failingFetch []
           (VObj [ ("name", VStr "Alpha");
                   ("information", VObj [("population", of_Z 0)]) ])
           [ VObj [ ("name", VStr "Beta");
                    ("information", VObj [("population", of_Z 12000)]) ];
             VObj [ ("name", VStr "Gamma Two");
                    ("information", VObj [("population", of_Z 0)]) ] ]
           404 (Normal (VObj [])) _ _ _ _ _ _) _ _).
  - reflexivity.
  - constructor.
  - reflexivity.
  - reflexivity.
  - reflexivity.
  - discriminate.
  - reflexivity.
Defined.

(** * Waiting time and counts *)

(** X19: a request spends at most 9000 ms waiting between attempts,
    whatever the upstream does, and spends them all exactly when it
    makes three upstream calls; a request answered at the first attempt
    never waits. *)
Theorem total_backoff_is_bounded
        (JSDOM : value -> document) (env : nat -> outcome)
        (u : upstream) (fuel : nat) (query : list (string * value)) :
  (maxAttempts <= fuel)%nat ->
  exists r w,
    handle JSDOM env u fuel query = Some (Sent r, w)
    /\ (0 <= totalWait (trace w) <= 9000)%Z
    /\ (totalWait (trace w) = 9000%Z <-> calls w = 3)
    /\ (calls w <= 1 -> totalWait (trace w) = 0%Z)%nat.
Proof.
  intros Hfuel.
  destruct (truthy (lookup (requiredParam u) query)) eqn:Hq.
  - destruct (handle_run JSDOM env u fuel query Hq Hfuel)
      as [r [w [n [Hh [Hn [Hcalls [Htrace _]]]]]]].
    exists r, w. split; [exact Hh|]. rewrite Htrace, Hcalls.
    unfold maxAttempts in Hn.
    destruct n as [|[|[|[|n]]]]; try lia; cbn;
      (split; [lia|]); (split; [split; intros H; (lia || discriminate H)|]);
      intros H; (lia || reflexivity).
  - assert (H400 : exists text,
               handle JSDOM env u fuel query
               = Some (Sent (mkResponse 400 (VObj [("error", VStr text)])),
                       mkWorld 0 [])).
    { destruct u; cbn [handle requiredParam] in *;
        unfold nearestSystems, sphereSystems, bodies, system;
        rewrite Hq; eexists; reflexivity. }
    destruct H400 as [text Hh].
    do 2 eexists. split; [exact Hh|]. cbn.
    split; [lia|]. split; [split; intros H; discriminate H|reflexivity].
Qed.

Lemma total_backoff_is_bounded_witness :
  exists r w,
    handle (fun _ => []) (fun _ => Rejected (mkError "socket hang up"))
           InaraNearestSystems 3 [("referenceSystem", VStr "Sol")]
    = Some (Sent r, w)
    /\ totalWait (trace w) = 9000%Z.
Proof.
  destruct (total_backoff_is_bounded
              (fun _ => []) (fun _ => Rejected (mkError "socket hang up"))
              InaraNearestSystems 3 [("referenceSystem", VStr "Sol")])
    as [r [w [Hh [_ [Hfull _]]]]].
  - unfold maxAttempts. lia.
  - exists r, w. split; [exact Hh|].
    apply Hfull. injection Hh as _ <-. reflexivity.
Defined.

Lemma not_digit_stops (c : ascii) :
  isDigit c = false ->
  match digit_value c with
  | Some v => (v <? 10)%Z = false
  | None => True
  end.
Proof.
  destruct c as [[] [] [] [] [] [] [] []]; vm_compute; intros H;
    first [exact I | reflexivity | discriminate H].
Qed.

Lemma parse_digits_stops (d rest : string) (acc : option Z) :
  every isDigit d = true ->
  match rest with
  | EmptyString => True
  | String c _ => isDigit c = false
  end ->
  parse_digits 10 (d ++ rest) acc = parse_digits 10 d acc.
Proof.
  intros Hd Hrest. revert acc. induction d as [|c d IH]; intros acc.
  - simpl. destruct rest as [|x rest]; [reflexivity|].
    simpl. pose proof (not_digit_stops x Hrest) as Hx.
    destruct (digit_value x) as [v|]; [rewrite Hx|]; reflexivity.
  - simpl in Hd. apply andb_prop in Hd. destruct Hd as [Hc Hd].
    simpl. destruct (digit_value c) as [v|]; [|reflexivity].
    destruct (v <? 10)%Z; [apply IH; exact Hd|reflexivity].
Qed.

Lemma strip_radix_numeral (d rest : string) :
  every isDigit d = true -> d <> EmptyString -> endsNumeral d rest ->
  strip_radix (d ++ rest) = (10%Z, d ++ rest).
Proof.
  intros Hd Hne Hend. destruct d as [|c d]; [contradiction|].
  simpl in Hd. apply andb_prop in Hd. destruct Hd as [Hc Hd].
  destruct d as [|c2 d].
  - destruct rest as [|x rest].
    + apply isDigit_cases in Hc.
      repeat (destruct Hc as [->|Hc]; [reflexivity|]). subst. reflexivity.
    + destruct Hend as [_ Hx].
      apply isDigit_cases in Hc.
      destruct Hc as [->|Hc].
      * destruct (Hx eq_refl) as [Hx1 Hx2].
        destruct x as [[] [] [] [] [] [] [] []];
          try reflexivity; congruence.
      * repeat (destruct Hc as [->|Hc]; [reflexivity|]). subst. reflexivity.
  - simpl in Hd. apply andb_prop in Hd. destruct Hd as [Hc2 _].
    apply isDigit_cases in Hc, Hc2.
    repeat (destruct Hc as [->|Hc]; [|]); subst;
      repeat (destruct Hc2 as [->|Hc2]; [reflexivity|]); subst; reflexivity.
Qed.

Lemma parseInt_ignores_tail (d rest : string) :
  every isDigit d = true -> d <> EmptyString -> endsNumeral d rest ->
  parseInt (d ++ rest) = parseInt d.
Proof.
  intros Hd Hne Hend.
  assert (Hfirst : forall tail,
             strip_sign (trimStart (d ++ tail)) = (false, d ++ tail)).
  { intros tail. destruct d as [|c d]; [contradiction|].
    simpl in Hd. apply andb_prop in Hd. destruct Hd as [Hc _].
    apply (digit_first c (d ++ tail) Hc). }
  unfold parseInt.
  rewrite (Hfirst rest). pose proof (Hfirst "") as Hself.
  rewrite append_nil_r' in Hself. rewrite Hself. cbv beta iota.
  rewrite (strip_radix_numeral d rest Hd Hne Hend).
  pose proof (strip_radix_numeral d "" Hd Hne I) as Hr.
  rewrite append_nil_r' in Hr. rewrite Hr. cbv beta iota.
  rewrite (parse_digits_stops d rest None Hd); [reflexivity|].
  destruct rest as [|x rest]; [exact I|]. destruct Hend as [Hx _]. exact Hx.
Qed.

(** X20: a faction or station count is read from the leading digits of
    the cell text and what follows them is ignored: when the trimmed text
    of the cell is a run of decimal digits followed by anything that does
    not go on with a digit (nor, after a lone "0", with [x] or [X], which
    would make it hexadecimal), the count is the one the digits alone
    give, so "12 factions" counts 12 and "1,234" counts 1. *)
Theorem count_ignores_trailing_text
        (cell0 : element) (cells : list element) (d rest : string) :
  every isDigit d = true -> d <> EmptyString -> endsNumeral d rest ->
  (cellString cells 4 = d ++ rest ->
   field "factions" (rowObject cell0 cells)
   = or_else (VNum (parseInt d)) (of_Z 0))
  /\ (cellString cells 5 = d ++ rest ->
      field "stations" (rowObject cell0 cells)
      = or_else (VNum (parseInt d)) (of_Z 0)).
Proof.
  intros Hd Hne Hend.
  change (field "factions" (rowObject cell0 cells)) with (countOf cells 4).
  change (field "stations" (rowObject cell0 cells)) with (countOf cells 5).
  rewrite !countOf_cellString.
  split; intros ->; rewrite (parseInt_ignores_tail d rest Hd Hne Hend);
    reflexivity.
Qed.

Lemma count_ignores_trailing_text_witness :
  field "factions"
    (rowObject (mkElement "td" [] [TextNode "Sol"] []) annotatedCells)
  = of_Z 12.
Proof.
  destruct (count_ignores_trailing_text
              (mkElement "td" [] [TextNode "Sol"] []) annotatedCells
              "12" " factions") as [Hfactions _].
  - reflexivity.
  - discriminate.
  - split; [reflexivity|]. intros E. discriminate E.
  - rewrite Hfactions; reflexivity.
Defined.
